(** * Presentation log files to BIDS events: [parse_log_file]

    A shallow embedding of [get_presentation_timings.py].

    - The table that [pd.read_csv] loads is the list of its rows, each with
      its index label (the positions [0 .. n-1]); reading the file itself is
      not part of the model, [parse_log_file] starts from the loaded rows.
    - Marker names are ASCII text and [str.upper] maps [a-z] to [A-Z].
    - The [Time] column is an int64 column: subtracting the start time wraps
      around at 64 bits.
    - The [onset] and [duration] columns are binary64 columns, modelled by
      Rocq's primitive floats; an int64 is converted by rounding to nearest
      even, as the division of an integer column by [10000] does.
    - Python sets are [gset]s, so the order in which a set would be printed
      is not modelled.
    - The [logging] calls are collected in a list of records, and a raised
      exception is the left injection of the outcome. *)

From Stdlib Require Import ZArith String Ascii Floats Lia.
From stdpp Require Import base option list strings gmap.

Local Open Scope Z_scope.

(** ** Strings: [str.upper] on ASCII text *)

Module Str.

Definition is_lower (c : ascii) : bool :=
  let n := nat_of_ascii c in (97 <=? n)%nat && (n <=? 122)%nat.

Definition upper_ascii (c : ascii) : ascii :=
  if is_lower c then ascii_of_nat (nat_of_ascii c - 32) else c.

(** [s.upper()] *)
Fixpoint upper (s : string) : string :=
  match s with
  | EmptyString => EmptyString
  | String c s' => String (upper_ascii c) (upper s')
  end.

(** Two characters that are the same letter in possibly different case, or
    the same character. *)
Definition same_letter (c d : ascii) : Prop :=
  c = d \/ (is_lower c = true /\ d = upper_ascii c)
        \/ (is_lower d = true /\ c = upper_ascii d).

(** Two strings that differ only in letter case. *)
Inductive case_variant : string -> string -> Prop :=
| cv_nil : case_variant EmptyString EmptyString
| cv_cons c d s t :
    same_letter c d -> case_variant s t ->
    case_variant (String c s) (String d t).

(** No character of the string is a lower-case letter. *)
Fixpoint no_lower (s : string) : bool :=
  match s with
  | EmptyString => true
  | String c s' => negb (is_lower c) && no_lower s'
  end.

End Str.

(** ** Numbers: int64 and binary64 *)

Module Num.

(** Two's complement wrap-around of a 64-bit signed integer. *)
Definition wrap64 (z : Z) : Z := (z + 2 ^ 63) mod 2 ^ 64 - 2 ^ 63.

Definition in_int64 (z : Z) : Prop := - 2 ^ 63 <= z < 2 ^ 63.

(** [a - b] on an int64 column. *)
Definition sub64 (a b : Z) : Z := wrap64 (a - b).

(** Conversion of an int64 to binary64, rounding to nearest even. *)
Definition float_of_int (z : Z) : float :=
  SF2Prim (binary_normalize prec emax z 0 false).

(** The Python literal [10000] once promoted to binary64. *)
Definition ten_thousand : float := 10000%float.

End Num.

(** ** The loaded table *)

(** One row of the log: the columns ['Trial'], ['name(str)'] and ['Time']. *)
Record RawRow := mkRaw { Trial : Z; name : string; Time : Z }.

(** A frame is the list of its rows, each with its index label. *)
Abbreviation frame := (list (nat * RawRow)).

(** The frame [pd.read_csv] builds: labels are the positions [0 .. n-1]. *)
Definition read_frame (rows : list RawRow) : frame :=
  imap (fun i r => (i, r)) rows.

(** [data['name(str)'] = data['name(str)'].str.upper()] *)
Definition upper_names (data : frame) : frame :=
  (fun ir => (ir.1, mkRaw (Trial ir.2) (Str.upper (name ir.2)) (Time ir.2))) <$> data.

(** [data['name(str)'].values] *)
Definition names (data : frame) : list string := (fun ir => name ir.2) <$> data.

(** [data.loc[data['name(str)'] == t, 'Time']] *)
Definition times_of (t : string) (data : frame) : list Z :=
  (fun ir => Time ir.2) <$> filter (fun ir => name ir.2 = t) data.

(** [.iloc[0]]: the first entry, [IndexError] on an empty selection. *)
Definition iloc0 {A} (l : list A) : option A := head l.

(** Rows after selecting and renaming the columns and rescaling [onset]. *)
Record Timed := mkTimed {
  t_idx : nat; t_trial_num : Z; t_trial_type : string; t_onset : float }.

(** Rows of the returned table. *)
Record Event := mkEvent {
  idx : nat; trial_num : Z; trial_type : string; onset : float; duration : float }.

(** [(filtered_data['onset'] - start_time) / 10000] on one row of the
    renamed frame. *)
Definition onset_of (start_time : Z) (time : Z) : float :=
  (Num.float_of_int (Num.sub64 time start_time) / Num.ten_thousand)%float.

Definition rescale (start_time : Z) (filtered : frame) : list Timed :=
  (fun ir => mkTimed ir.1 (Trial ir.2) (name ir.2)
                      (onset_of start_time (Time ir.2))) <$> filtered.

(** [Series.diff(-1)]: each entry minus the next one, NaN in the last place. *)
Definition diff_m1 (l : list float) : list float :=
  match l with
  | [] => []
  | _ :: tl => zip_with PrimFloat.sub l tl ++ [nan]
  end.

(** [filtered_data['duration'] = filtered_data['onset'].diff(-1).abs()] *)
Definition add_duration (rows : list Timed) : list Event :=
  zip_with (fun r d => mkEvent (t_idx r) (t_trial_num r) (t_trial_type r) (t_onset r) d)
           rows (PrimFloat.abs <$> diff_m1 (t_onset <$> rows)).

(** [filtered_data.index[-1]] *)
Definition last_index (rows : list Event) : option nat := last (idx <$> rows).

(** [filtered_data.at[label, 'onset']] *)
Definition at_onset (label : nat) (rows : list Event) : option float :=
  onset <$> head (filter (fun r => idx r = label) rows).

(** [filtered_data.at[label, 'duration'] = v] *)
Definition set_duration_at (label : nat) (v : float) (rows : list Event) : list Event :=
  (fun r => if decide (idx r = label)
            then mkEvent (idx r) (trial_num r) (trial_type r) (onset r) v
            else r) <$> rows.

(** [(end_time - onset * 10000) / 10000] *)
Definition last_duration (end_time : Z) (o : float) : float :=
  ((Num.float_of_int end_time - o * Num.ten_thousand) / Num.ten_thousand)%float.

(** The final selection: rows whose type is neither marker. *)
Definition strip_markers (s e : string) (rows : list Event) : list Event :=
  filter (fun r => trial_type r <> s /\ trial_type r <> e) rows.

(** ** Outcomes *)

Inductive exn :=
| ValueError (missing : list string)
| IndexError.

Inductive log_record :=
| LogError (missing : list string)
| LogWarning (missing_types : gset string).

Definition outcome := (exn + list Event)%type.

(** [missing_types = set(trial_types) - set(data['name(str)'].values)] *)
Definition missing_types (trial_types : list string) (data : frame) : gset string :=
  list_to_set trial_types ∖ list_to_set (names data).

(** [relevant_trials = set(trial_types).union({start, end})] *)
Definition relevant_trials (trial_types : list string) (s e : string) : gset string :=
  list_to_set trial_types ∪ {[ s; e ]}.

(** The warning of lines 46-47, issued only for a non-empty set. *)
Definition warn_missing (m : gset string) : list log_record :=
  if decide (m = ∅) then [] else [LogWarning m].

(** Lines 49-72, once both markers are known to be present. *)
Definition compute_events (data : frame) (s e : string) (trial_types : list string)
  : outcome :=
  let filtered := filter (fun ir => name ir.2 ∈ relevant_trials trial_types s e) data in
  match iloc0 (times_of s data) with
  | None => inl IndexError
  | Some start_time =>
    match iloc0 (times_of e data) with
    | None => inl IndexError
    | Some end_time =>
      let rows := add_duration (rescale start_time filtered) in
      match last_index rows with
      | None => inl IndexError
      | Some li =>
        match at_onset li rows with
        | None => inl IndexError
        | Some o =>
          inr (strip_markers s e (set_duration_at li (last_duration end_time o) rows))
        end
      end
    end
  end.

(** [parse_log_file], from the loaded rows on. *)
Definition parse_log_file (rows : list RawRow)
    (start_trial_type end_trial_type : string) (trial_types : list string)
  : list log_record * outcome :=
  let data := upper_names (read_frame rows) in
  let s := Str.upper start_trial_type in
  let e := Str.upper end_trial_type in
  if decide (s ∉ names data \/ e ∉ names data) then
    let missing := filter (fun t => t ∉ names data) [s; e] in
    ([LogError missing], inl (ValueError missing))
  else
    let tys := Str.upper <$> trial_types in
    (warn_missing (missing_types tys data), compute_events data s e tys).

(** ** Rounding to binary64, for the proofs about order *)

(** The record [mrs] of a shifted mantissa, its round bit and its sticky bit
    locates the rational [a / D]: the mantissa is the integer part, the
    round bit tells whether the fraction reaches one half and the sticky bit
    whether it differs from zero and from one half. *)
Definition located (a D : Z) (mrs : shr_record) : Prop :=
  let m := shr_m mrs in
  0 <= m /\ m * D <= a < (m + 1) * D /\
  (shr_r mrs = true <-> D <= 2 * (a - m * D)) /\
  (shr_s mrs = true <-> (a - m * D <> 0 /\ 2 * (a - m * D) <> D)).

(** Rounding [a / D] to the nearest integer, ties to even. *)
Definition rne (a D : Z) : Z :=
  let q := a / D in
  let r := a mod D in
  if 2 * r <? D then q
  else if D <? 2 * r then q + 1
  else if Z.even q then q else q + 1.

(** A rounded mantissa that reached [2^53] is renormalised. *)
Definition renorm (m e : Z) : Z * Z :=
  if m =? 2 ^ 53 then (2 ^ 52, e + 1) else (m, e).

(** The binary64 mantissa and exponent of a positive integer. *)
Definition pos_float (x : Z) : Z * Z :=
  let d := Zdigits2 x in
  renorm (rne (x * 2 ^ Z.max 0 (53 - d)) (2 ^ Z.max 0 (d - 53))) (d - 53).

(** The mantissa of binary64 [10000.0]; its exponent is [-39]. *)
Definition m10000 : positive := 5497558138880000.

(** Binary64 [10000.0]. *)
Definition c10000 : spec_float := S754_finite false m10000 (-39).

(** The mantissa and exponent of the quotient by [10000.0] of the positive
    normal binary64 number with mantissa [m1] and exponent [e1]. *)
Definition div_float (me : Z * Z) : Z * Z :=
  let a := me.1 * 2 ^ 53 in
  let n := Zdigits2 (a / Zpos m10000) - 53 in
  renorm (rne a (Zpos m10000 * 2 ^ n)) (me.2 - 14 + n).

(** The order of positive normal numbers given as mantissa and exponent. *)
Definition lex_le (f g : Z * Z) : Prop := f.2 < g.2 \/ (f.2 = g.2 /\ f.1 <= g.1).

(** [x / 10000] on binary64, as the specification computes it. *)
Definition sf_onset (x : Z) : spec_float :=
  SFdiv prec emax (binary_normalize prec emax x 0 false) c10000.

(** ** Vocabulary of the statements *)

(** The normalised marker name of a row of the log. *)
Definition norm (r : RawRow) : string := Str.upper (name r).

(** [t] is the [Time] of the first row, in table order, whose normalised
    name is [m]. *)
Definition first_time (rows : list RawRow) (m : string) (t : Z) : Prop :=
  exists k r, rows !! k = Some r /\ norm r = m /\ Time r = t /\
    forall j r', (j < k)%nat -> rows !! j = Some r' -> norm r' <> m.

(** A row is retained when its normalised name is a requested type or one
    of the two markers. *)
Definition is_retained (tys : list string) (s e : string) (r : RawRow) : Prop :=
  norm r ∈ (Str.upper <$> tys) \/ norm r = Str.upper s \/ norm r = Str.upper e.

(** The retained rows with their positions in the log, in table order. *)
Definition retained (rows : list RawRow) (tys : list string) (s e : string)
  : list (nat * RawRow) :=
  filter (fun ir => is_retained tys s e ir.2) (read_frame rows).

(** Both markers occur in the log, after normalisation. *)
Definition has_markers (rows : list RawRow) (s e : string) : Prop :=
  Str.upper s ∈ (norm <$> rows) /\ Str.upper e ∈ (norm <$> rows).

(** The table a successful call computes before the marker rows are
    dropped: every retained row with its onset and its duration. *)
Fixpoint with_durations (end_time : Z) (rows : list Timed) : list Event :=
  match rows with
  | [] => []
  | r :: tl =>
    mkEvent (t_idx r) (t_trial_num r) (t_trial_type r) (t_onset r)
      (match tl with
       | [] => last_duration end_time (t_onset r)
       | r' :: _ => PrimFloat.abs (t_onset r - t_onset r')
       end) :: with_durations end_time tl
  end.

(** Two rows of a log that differ only in the letter case of the name. *)
Definition row_case_variant (r1 r2 : RawRow) : Prop :=
  Trial r1 = Trial r2 /\ Time r1 = Time r2 /\ Str.case_variant (name r1) (name r2).

(** The requested types that occur in the log. *)
Definition present_types (rows : list RawRow) (tys : list string) : list string :=
  filter (fun t => Str.upper t ∈ norm <$> rows) tys.

(** A log with repeated markers, out of time order, in mixed case. *)
Definition repeated_log : list RawRow :=
  [ mkRaw 0 "vas" 990000; mkRaw 1 "fmri_t0" 1000000; mkRaw 1 "VAS" 1050000;
    mkRaw 1 "fMRI_T0" 1200000; mkRaw 2 "end" 1100000; mkRaw 3 "END" 1300000;
    mkRaw 4 "Pain" 1080000; mkRaw 5 "other" 1090000 ].

Definition repeated_out : list Event :=
  [ mkEvent 0 0 "VAS" (-1)%float 1%float;
    mkEvent 2 1 "VAS" 5%float 15%float;
    mkEvent 6 4 "PAIN" 8%float 102%float ].

(** The example log in another letter case. *)
Definition example_log_mixed : list RawRow :=
  [ mkRaw 1 "fmri_t0" 1000000; mkRaw 1 "Vas" 1050000;
    mkRaw 2 "pAIN" 1080000; mkRaw 3 "end" 1100000 ].

(** A warning listing every requested type is logged, and the table is
    empty, when none of the requested types occurs in the log. *)
Definition warns_all_requested (rows : list RawRow) (s e : string)
    (tys : list string) : Prop :=
  has_markers rows s e ->
  (forall t, t ∈ tys -> Str.upper t ∉ norm <$> rows) ->
  parse_log_file rows s e tys
  = ([LogWarning (list_to_set (Str.upper <$> tys))], inr []).

(** The rows are in non-decreasing order of [Time]. *)
Definition chronological (rows : list RawRow) : Prop :=
  forall i j r r', (i <= j)%nat ->
    rows !! i = Some r -> rows !! j = Some r' -> Time r <= Time r'.

(** A test for it: no row is later than the next one. *)
Fixpoint chronologicalb (rows : list RawRow) : bool :=
  match rows with
  | r :: tl =>
    match tl with
    | r' :: _ => (Time r <=? Time r') && chronologicalb tl
    | [] => true
    end
  | [] => true
  end.

Global Instance in_int64_dec z : Decision (Num.in_int64 z).
Proof. unfold Num.in_int64. apply _. Defined.

(** The [Time] column is an int64 column: every value fits 64 bits. *)
Definition int64_column (rows : list RawRow) : Prop :=
  Forall (fun r => Num.in_int64 (Time r)) rows.

(** Every onset of a returned table is the plain difference with the first
    start time, divided by [10000]. *)
Definition plain_onset_formula (rows : list RawRow) (s e : string)
    (tys : list string) : Prop :=
  forall lg out, parse_log_file rows s e tys = (lg, inr out) ->
  exists ts, first_time rows (Str.upper s) ts /\
    forall ev, ev ∈ out ->
      exists r, rows !! idx ev = Some r /\
        onset ev = (Num.float_of_int (Time r - ts) / 10000)%float.

(** The onsets of a table are in non-decreasing order. *)
Definition onsets_nondecreasing (out : list Event) : Prop :=
  forall i j ev ev', (i <= j)%nat ->
    out !! i = Some ev -> out !! j = Some ev' ->
    (onset ev <=? onset ev')%float = true.

(** A chronological log gives non-decreasing onsets. *)
Definition chronological_gives_sorted (rows : list RawRow) (s e : string)
    (tys : list string) : Prop :=
  chronological rows ->
  forall lg out, parse_log_file rows s e tys = (lg, inr out) ->
    onsets_nondecreasing out.

(** A chronological int64 log whose first difference with the start time
    does not fit 64 bits. *)
Definition overflow_log : list RawRow :=
  [ mkRaw 1 "VAS" (-10); mkRaw 2 "VAS" 10;
    mkRaw 3 "START" 9223372036854775807; mkRaw 4 "END" 9223372036854775807 ].

(** The table before the marker rows are dropped. *)
Definition full_table (rows : list RawRow) (tys : list string) (s e : string)
    (ts te : Z) : list Event :=
  with_durations te (rescale ts (upper_names (retained rows tys s e))).

Global Instance has_markers_dec rows s e : Decision (has_markers rows s e).
Proof. unfold has_markers. apply _. Defined.

Definition example_log : list RawRow :=
  [ mkRaw 1 "FMRI_T0" 1000000; mkRaw 1 "VAS" 1050000;
    mkRaw 2 "PAIN" 1080000; mkRaw 3 "END" 1100000 ].

(** ** Vocabulary of the further properties *)

(** The label, the trial number and the trial type of a returned row. *)
Definition identity_columns (ev : Event) : nat * Z * string :=
  (idx ev, trial_num ev, trial_type ev).

(** The four columns of a returned row, without its label. *)
Definition value_columns (ev : Event) : Z * string * float * float :=
  (trial_num ev, trial_type ev, onset ev, duration ev).

(** A row whose normalised name is a requested type and is not a marker. *)
Definition is_requested (tys : list string) (s e : string) (r : RawRow) : Prop :=
  norm r ∈ (Str.upper <$> tys) /\ norm r <> Str.upper s /\ norm r <> Str.upper e.

(** The log without the rows that are neither requested nor markers. *)
Definition keep_retained (rows : list RawRow) (tys : list string) (s e : string)
  : list RawRow :=
  filter (is_retained tys s e) rows.

(** A log in which two rows have the same [Time]. *)
Definition simultaneous_log : list RawRow :=
  [ mkRaw 1 "fMRI_T0" 1000000; mkRaw 1 "VAS" 1050000;
    mkRaw 2 "PAIN" 1050000; mkRaw 3 "END" 1100000 ].

Definition simultaneous_out : list Event :=
  [ mkEvent 1 1 "VAS" 5%float 0%float; mkEvent 2 2 "PAIN" 5%float 5%float ].

(** A specification float that is a number: a zero or a finite value. *)
Definition sf_finite (f : spec_float) : bool :=
  match f with
  | S754_zero _ | S754_finite _ _ _ => true
  | S754_infinity _ | S754_nan => false
  end.

(** * Facts about int64 arithmetic *)

Lemma wrap64_id z : Num.in_int64 z -> Num.wrap64 z = z.
Proof.
  unfold Num.in_int64, Num.wrap64. intros H.
  rewrite Z.mod_small by lia. lia.
Qed.

(** * Rounding to binary64 is monotone

    The onset of a row is [float (t - start) / 10000].  Both steps round to
    nearest even.  From the Standard Library's specification of binary64
    ([SpecFloat]) the result of each step is computed, in the range of the
    int64 values, as a mantissa of 53 bits and an exponent; on such pairs
    the order of the numbers is the lexicographic order, and each step keeps
    it. *)

(** The number of binary digits of a positive number. *)
Lemma digits2_pos_bounds p :
  2 ^ (Zpos (digits2_pos p) - 1) <= Zpos p < 2 ^ Zpos (digits2_pos p).
Proof.
  induction p as [q IH|q IH|]; simpl digits2_pos.
  - rewrite Pos2Z.inj_succ.
    replace (Z.succ (Zpos (digits2_pos q)) - 1) with (Z.succ (Zpos (digits2_pos q) - 1)) by lia.
    rewrite !Z.pow_succ_r by lia. lia.
  - rewrite Pos2Z.inj_succ.
    replace (Z.succ (Zpos (digits2_pos q)) - 1) with (Z.succ (Zpos (digits2_pos q) - 1)) by lia.
    rewrite !Z.pow_succ_r by lia. lia.
  - simpl. lia.
Qed.

Lemma digits2_pos_unique p k :
  2 ^ (k - 1) <= Zpos p < 2 ^ k -> Zpos (digits2_pos p) = k.
Proof.
  intros [Hlo Hhi]. pose proof (digits2_pos_bounds p) as [Hlo' Hhi'].
  assert (0 < k).
  { destruct (Z_lt_le_dec 0 k) as [?|Hk]; [done|].
    assert (2 ^ k <= 2 ^ 0) by (apply Z.pow_le_mono_r; lia). simpl in *. lia. }
  destruct (Z.lt_trichotomy (Zpos (digits2_pos p)) k) as [Hlt|[?|Hlt]]; [|done|].
  - assert (2 ^ Zpos (digits2_pos p) <= 2 ^ (k - 1)) by (apply Z.pow_le_mono_r; lia). lia.
  - assert (2 ^ k <= 2 ^ (Zpos (digits2_pos p) - 1)) by (apply Z.pow_le_mono_r; lia). lia.
Qed.

(** Shifting the mantissa by one bit locates [a] against [2 * D]. *)
Lemma located_shr_1 a D mrs :
  0 < D -> located a D mrs -> located a (2 * D) (shr_1 mrs).
Proof.
  intros HD. destruct mrs as [m r s]. unfold located. simpl.
  intros (Hm & Hin & Hr & Hs).
  destruct m as [|[p|p|]|p]; simpl; try lia;
    destruct r, s; simpl; intuition (try discriminate; try lia).
Qed.

Lemma located_iter p : forall a D mrs,
  0 < D -> located a D mrs -> located a (D * 2 ^ Zpos p) (SpecFloat.iter_pos shr_1 p mrs).
Proof.
  induction p as [q IH|q IH|]; intros a D mrs HD H; simpl SpecFloat.iter_pos.
  - replace (D * 2 ^ Zpos q~1) with (2 * D * 2 ^ Zpos q * 2 ^ Zpos q).
    + apply IH; [|apply IH; [lia|by apply located_shr_1]].
      apply Z.mul_pos_pos; [lia|]. by apply Z.pow_pos_nonneg.
    + replace (Zpos q~1) with (Zpos q + Zpos q + 1) by lia.
      rewrite !Z.pow_add_r by lia. change (2 ^ 1) with 2. ring.
  - replace (D * 2 ^ Zpos q~0) with (D * 2 ^ Zpos q * 2 ^ Zpos q).
    + apply IH; [|by apply IH].
      apply Z.mul_pos_pos; [lia|]. by apply Z.pow_pos_nonneg.
    + replace (Zpos q~0) with (Zpos q + Zpos q) by lia.
      rewrite Z.pow_add_r by lia. ring.
  - replace (D * 2 ^ 1) with (2 * D) by (simpl; lia). by apply located_shr_1.
Qed.

Lemma located_div a D mrs :
  0 < D -> located a D mrs -> shr_m mrs = a / D /\ a - shr_m mrs * D = a mod D.
Proof.
  intros HD (Hm & Hin & _).
  assert (Hq : shr_m mrs = a / D).
  { apply (Z.div_unique a D (shr_m mrs) (a - shr_m mrs * D)); lia. }
  split; [done|]. rewrite Hq at 1. pose proof (Z.div_mod a D). lia.
Qed.

(** Rounding a located mantissa to nearest even computes [rne a D]. *)
Lemma located_rne a D mrs :
  0 < D -> located a D mrs ->
  round_nearest_even (shr_m mrs) (loc_of_shr_record mrs) = rne a D.
Proof.
  intros HD H. destruct (located_div a D mrs HD H) as [Hq Hr].
  destruct H as (Hm & Hin & Hrb & Hsb). unfold rne.
  rewrite <- Hq, <- Hr.
  destruct mrs as [m r s]. simpl in *.
  destruct r, s; simpl.
  - rewrite (proj2 (Z.ltb_ge _ _)) by lia. rewrite (proj2 (Z.ltb_lt _ _)) by lia. done.
  - rewrite (proj2 (Z.ltb_ge _ _)) by lia.
    rewrite (proj2 (Z.ltb_ge D _)); [done|].
    destruct (Z.eq_dec (2 * (a - m * D)) D); [lia|]. 
    destruct (Z.eq_dec (a - m * D) 0); [lia|]. intuition (try discriminate; try lia).
  - rewrite (proj2 (Z.ltb_lt _ _)); [done|].
    destruct (Z_lt_le_dec (2 * (a - m * D)) D); [done|]. intuition (try discriminate; try lia).
  - rewrite (proj2 (Z.ltb_lt _ _)); [done|].
    destruct (Z_lt_le_dec (2 * (a - m * D)) D); [done|]. intuition (try discriminate; try lia).
Qed.

Lemma rne_bounds a D : 0 < D -> a / D <= rne a D <= a / D + 1.
Proof.
  intros HD. unfold rne.
  destruct (_ <? _); [lia|]. destruct (_ <? _); [lia|]. destruct (Z.even _); lia.
Qed.

Lemma rne_mono a a' D : 0 < D -> a <= a' -> rne a D <= rne a' D.
Proof.
  intros HD Hle.
  assert (Hq : a / D <= a' / D) by (apply Z.div_le_mono; lia).
  destruct (Z.eq_dec (a / D) (a' / D)) as [Heq|Hne].
  - unfold rne. rewrite <- Heq.
    pose proof (Z.div_mod a D ltac:(lia)) as Ha.
    pose proof (Z.div_mod a' D ltac:(lia)) as Ha'. rewrite <- Heq in Ha'.
    assert (a mod D <= a' mod D) by lia.
    repeat match goal with |- context [?x <? ?y] => destruct (Z.ltb_spec x y) end;
      try lia; destruct (Z.even (a / D)); lia.
  - pose proof (rne_bounds a D HD). pose proof (rne_bounds a' D HD). lia.
Qed.

Lemma rne_scale a D : 0 < D -> rne (2 * a) (2 * D) = rne a D.
Proof.
  intros HD. unfold rne.
  rewrite Z.div_mul_cancel_l by lia. rewrite Z.mul_mod_distr_l by lia.
  repeat match goal with |- context [?x <? ?y] => destruct (Z.ltb_spec x y) end; lia.
Qed.


Lemma shr_m_of_loc m l : shr_m (shr_record_of_loc m l) = m.
Proof. by destruct l as [|[]]. Qed.

Lemma located_exact m : 0 <= m -> located m 1 (shr_record_of_loc m loc_Exact).
Proof.
  unfold located; simpl. intros Hm.
  repeat split; try lia; intros; try discriminate; lia.
Qed.

Lemma digits_ge_53 p : 2 ^ 52 <= Zpos p -> 53 <= Zpos (digits2_pos p).
Proof.
  intros Hp. pose proof (digits2_pos_bounds p) as [_ Hhi].
  destruct (Z_lt_le_dec (Zpos (digits2_pos p)) 53) as [Hlt|]; [|done].
  assert (2 ^ Zpos (digits2_pos p) <= 2 ^ 52) by (apply Z.pow_le_mono_r; lia).
  lia.
Qed.

Lemma shr_fexp_normal m e l a D :
  0 < D -> located a D (shr_record_of_loc m l) -> 2 ^ 52 <= m ->
  -1074 <= e + (Zdigits2 m - 53) ->
  exists mrs,
    shr_fexp prec emax m e l = (mrs, e + (Zdigits2 m - 53)) /\
    located a (D * 2 ^ (Zdigits2 m - 53)) mrs.
Proof.
  intros HD Hloc Hm He. unfold shr_fexp.
  destruct m as [|p|p]; try lia. simpl Zdigits2 in *.
  pose proof (digits_ge_53 p Hm) as Hd.
  replace (fexp prec emax (Zpos (digits2_pos p) + e) - e)
    with (Zpos (digits2_pos p) - 53)
    by (unfold fexp, SpecFloat.emin, prec, emax; lia).
  destruct (Zpos (digits2_pos p) - 53) as [|n|n] eqn:Hn; try lia.
  - exists (shr_record_of_loc (Zpos p) l). simpl.
    rewrite Z.add_0_r, Z.mul_1_r. done.
  - eexists. unfold shr. split; [done|]. by apply located_iter.
Qed.

(** On a mantissa of at least 53 bits that locates [a / D], and away from
    the subnormal and overflow ranges, [binary_round_aux] returns the
    finite number whose mantissa is [a / (D * 2^n)] rounded to nearest even,
    [n] being the number of bits in excess, renormalised. *)
Lemma binary_round_aux_normal sx mx ex lx a D :
  0 < D -> located a D (shr_record_of_loc mx lx) -> 2 ^ 52 <= mx ->
  -1074 <= ex + (Zdigits2 mx - 53) -> ex + (Zdigits2 mx - 53) + 1 <= 971 ->
  exists p,
    binary_round_aux prec emax sx mx ex lx
    = S754_finite sx p (renorm (rne a (D * 2 ^ (Zdigits2 mx - 53)))
                               (ex + (Zdigits2 mx - 53))).2 /\
    Zpos p = (renorm (rne a (D * 2 ^ (Zdigits2 mx - 53)))
                     (ex + (Zdigits2 mx - 53))).1 /\
    2 ^ 52 <= Zpos p < 2 ^ 53 /\
    2 ^ 52 <= rne a (D * 2 ^ (Zdigits2 mx - 53)) <= 2 ^ 53.
Proof.
  intros HD Hloc Hm Hlo Hhi. unfold binary_round_aux.
  destruct (shr_fexp_normal mx ex lx a D HD Hloc Hm Hlo) as (mrs & -> & Hmrs).
  set (n := Zdigits2 mx - 53) in *.
  assert (Hn : 0 <= n).
  { unfold n. destruct mx as [|p|p]; try lia. simpl.
    pose proof (digits_ge_53 p Hm). lia. }
  assert (HD' : 0 < D * 2 ^ n).
  { apply Z.mul_pos_pos; [lia|]. by apply Z.pow_pos_nonneg. }
  rewrite (located_rne a _ mrs HD' Hmrs).
  assert (Hm1 : 2 ^ 52 <= a / (D * 2 ^ n) < 2 ^ 53).
  { destruct (located_div a D _ HD Hloc) as [Hq _]. rewrite shr_m_of_loc in Hq.
    rewrite <- Z.div_div by (try lia; by apply Z.pow_pos_nonneg).
    rewrite <- Hq.
    assert (Hb : 2 ^ (n + 52) <= mx < 2 ^ (n + 53)).
    { unfold n. destruct mx as [|p|p]; try lia. simpl.
      pose proof (digits2_pos_bounds p) as Hb.
      replace (Zpos (digits2_pos p) - 53 + 52) with (Zpos (digits2_pos p) - 1) by lia.
      replace (Zpos (digits2_pos p) - 53 + 53) with (Zpos (digits2_pos p)) by lia.
      done. }
    rewrite !Z.pow_add_r in Hb by lia.
    assert (0 < 2 ^ n) by (by apply Z.pow_pos_nonneg).
    split.
    - apply Z.div_le_lower_bound; lia.
    - apply Z.div_lt_upper_bound; lia. }
  pose proof (rne_bounds a (D * 2 ^ n) HD') as Hrb.
  set (m2 := rne a (D * 2 ^ n)) in *.
  assert (Hm2 : 2 ^ 52 <= m2 <= 2 ^ 53) by lia.
  destruct (shr_fexp_normal m2 (ex + n) loc_Exact m2 1 ltac:(lia)
              (located_exact m2 ltac:(lia)) ltac:(lia)) as (mrs2 & Heq2 & Hmrs2).
  { destruct m2 as [|p|p]; try lia. simpl.
    pose proof (digits_ge_53 p ltac:(lia)). lia. }
  rewrite Heq2. rewrite Z.mul_1_l in Hmrs2.
  unfold renorm. destruct (Z.eqb_spec m2 (2 ^ 53)) as [He|Hne].
  - assert (Hdig : Zdigits2 m2 = 54).
    { rewrite He. reflexivity. }
    rewrite Hdig in *. change (2 ^ (54 - 53)) with 2 in Hmrs2.
    destruct (located_div m2 2 mrs2 ltac:(lia) Hmrs2) as [Hq2 _].
    rewrite Hq2, He. change (2 ^ 53 / 2) with (Zpos (Z.to_pos (2 ^ 52))).
    rewrite (proj2 (Z.leb_le _ _)) by (unfold prec, emax; lia).
    eexists. split; [|split; [reflexivity|split; [simpl; lia|lia]]].
    simpl snd. f_equal; lia.
  - assert (Hdig : Zdigits2 m2 = 53).
    { destruct m2 as [|p|p]; try lia. simpl. apply digits2_pos_unique. simpl; lia. }
    rewrite Hdig in *. change (2 ^ (53 - 53)) with 1 in Hmrs2.
    destruct (located_div m2 1 mrs2 ltac:(lia) Hmrs2) as [Hq2 _].
    rewrite Hq2, Z.div_1_r.
    destruct m2 as [|p|p]; try lia.
    rewrite (proj2 (Z.leb_le _ _)) by (unfold prec, emax; lia).
    exists p. simpl. split; [|split; [done|split; lia]].
    f_equal; lia.
Qed.

Lemma iter_xO_mul p k : Zpos (Pos.iter xO p k) = Zpos p * 2 ^ Zpos k.
Proof.
  induction k as [|k IH] using Pos.peano_ind.
  - simpl. lia.
  - rewrite Pos.iter_succ, Pos2Z.inj_xO, IH, Pos2Z.inj_succ, Z.pow_succ_r by lia. ring.
Qed.

(** The conversion of a positive integer. *)
Lemma binary_round_pos sx p :
  Zpos (digits2_pos p) <= 1000 ->
  exists q,
    binary_round prec emax sx p 0 = S754_finite sx q (pos_float (Zpos p)).2 /\
    Zpos q = (pos_float (Zpos p)).1 /\
    2 ^ 52 <= Zpos q < 2 ^ 53 /\
    2 ^ 52 <= rne (Zpos p * 2 ^ Z.max 0 (53 - Zpos (digits2_pos p)))
                  (2 ^ Z.max 0 (Zpos (digits2_pos p) - 53)) <= 2 ^ 53.
Proof.
  intros Hd. unfold binary_round, pos_float. simpl Zdigits2.
  pose proof (digits2_pos_bounds p) as [Hlo Hhi].
  set (d := Zpos (digits2_pos p)) in *.
  assert (0 < d) by (unfold d; lia).
  replace (fexp prec emax (d + 0)) with (d - 53)
    by (unfold fexp, SpecFloat.emin, prec, emax; lia).
  unfold shl_align.
  destruct (d - 53 - 0) as [|k|k] eqn:Hk.
  - assert (Hdig : Zdigits2 (Zpos p) = 53) by (simpl; fold d; lia).
    destruct (binary_round_aux_normal sx (Zpos p) 0 loc_Exact (Zpos p) 1)
      as (q & Heq & Hq & Hb & Hr); try lia.
    { by apply located_exact. }
    { replace d with 53 in Hlo by lia. done. }
    rewrite Hdig in *. change (1 * 2 ^ (53 - 53)) with 1 in *.
    replace (Z.max 0 (53 - d)) with 0 by lia.
    replace (Z.max 0 (d - 53)) with 0 by lia.
    change (2 ^ 0) with 1. rewrite Z.mul_1_r.
    replace (d - 53) with (0 + (53 - 53)) by lia.
    exists q. done.
  - assert (Hdig : Zdigits2 (Zpos p) = d) by done.
    assert (2 ^ 52 <= Zpos p).
    { assert (2 ^ 52 <= 2 ^ (d - 1)) by (apply Z.pow_le_mono_r; lia). lia. }
    destruct (binary_round_aux_normal sx (Zpos p) 0 loc_Exact (Zpos p) 1)
      as (q & Heq & Hq & Hb & Hr); try lia.
    { by apply located_exact. }
    rewrite Hdig in *. rewrite Z.mul_1_l in *.
    replace (Z.max 0 (53 - d)) with 0 by lia.
    replace (Z.max 0 (d - 53)) with (d - 53) by lia.
    change (2 ^ 0) with 1. rewrite Z.mul_1_r.
    rewrite Z.add_0_l in *.
    exists q. done.
  - assert (Hmz : Zpos (Pos.iter xO p k) = Zpos p * 2 ^ (53 - d)).
    { rewrite iter_xO_mul. f_equal. f_equal. lia. }
    assert (Hpow : 2 ^ (53 - d) * 2 ^ (d - 1) = 2 ^ 52).
    { rewrite <- Z.pow_add_r by lia. f_equal. lia. }
    assert (Hpow' : 2 ^ (53 - d) * 2 ^ d = 2 ^ 53).
    { rewrite <- Z.pow_add_r by lia. f_equal. lia. }
    assert (0 < 2 ^ (53 - d)) by (apply Z.pow_pos_nonneg; lia).
    assert (Hrange : 2 ^ 52 <= Zpos (Pos.iter xO p k) < 2 ^ 53).
    { rewrite Hmz. nia. }
    assert (Hdig : Zdigits2 (Zpos (Pos.iter xO p k)) = 53).
    { simpl. apply digits2_pos_unique. simpl (53 - 1). lia. }
    destruct (binary_round_aux_normal sx (Zpos (Pos.iter xO p k)) (d - 53) loc_Exact
                (Zpos (Pos.iter xO p k)) 1)
      as (q & Heq & Hq & Hb & Hr); try lia.
    { by apply located_exact. }
    rewrite Hdig in *. change (1 * 2 ^ (53 - 53)) with 1 in *.
    replace (Z.max 0 (53 - d)) with (53 - d) by lia.
    replace (Z.max 0 (d - 53)) with 0 by lia.
    change (2 ^ 0) with 1. rewrite <- Hmz.
    replace (d - 53 + (53 - 53)) with (d - 53) in * by lia.
    exists q. done.
Qed.

Lemma Prim2SF_10000 : Prim2SF 10000%float = c10000.
Proof. reflexivity. Qed.

(** The location that a division computes from its remainder. *)
Lemma located_new_location a D :
  0 < D -> 0 <= a ->
  located a D (shr_record_of_loc (a / D) (new_location D (a mod D))).
Proof.
  intros HD Ha.
  pose proof (Z.div_mod a D ltac:(lia)) as Hdm.
  pose proof (Z.mod_pos_bound a D HD) as Hmod.
  assert (Hq : 0 <= a / D) by (apply Z.div_pos; lia).
  assert (Hrem : a - a / D * D = a mod D) by lia.
  unfold located. rewrite shr_m_of_loc, Hrem.
  split; [done|]. split; [lia|].
  unfold new_location, new_location_even, new_location_odd.
  destruct (Z.even D) eqn:Hev.
  - destruct (Z.eqb_spec (a mod D) 0) as [H0|H0]; simpl.
    + rewrite H0. split; split; intros; try discriminate; lia.
    + destruct (Z.compare_spec (2 * (a mod D)) D); simpl;
        split; split; intros; try discriminate; try done; lia.
  - assert (Hodd : 2 * (a mod D) <> D).
    { intros Heq. rewrite <- Heq, Z.even_mul in Hev. discriminate. }
    destruct (Z.eqb_spec (a mod D) 0) as [H0|H0]; simpl.
    + rewrite H0. split; split; intros; try discriminate; lia.
    + destruct (Z.compare_spec (2 * (a mod D) + 1) D); simpl;
        split; split; intros; try discriminate; try done; lia.
Qed.

Lemma quotient_digits m1 :
  2 ^ 52 <= m1 < 2 ^ 53 ->
  2 ^ 52 <= m1 * 2 ^ 53 / Zpos m10000 < 2 ^ 54 /\
  (Zdigits2 (m1 * 2 ^ 53 / Zpos m10000) = 53 \/ Zdigits2 (m1 * 2 ^ 53 / Zpos m10000) = 54).
Proof.
  intros Hm.
  assert (Hq : 2 ^ 52 <= m1 * 2 ^ 53 / Zpos m10000 < 2 ^ 54).
  { split.
    - apply Z.div_le_lower_bound; [done|]. unfold m10000. lia.
    - apply Z.div_lt_upper_bound; [done|]. unfold m10000. lia. }
  split; [done|].
  destruct (m1 * 2 ^ 53 / Zpos m10000) as [|q|q]; try lia. simpl.
  destruct (Z_lt_le_dec (Zpos q) (2 ^ 53)).
  - left. apply digits2_pos_unique. simpl (53 - 1). lia.
  - right. apply digits2_pos_unique. simpl (54 - 1). lia.
Qed.

(** The division of a normal number by [10000.0]. *)
Lemma SFdiv_normal s1 p1 e1 :
  2 ^ 52 <= Zpos p1 < 2 ^ 53 -> -1000 <= e1 <= 900 ->
  exists q,
    SFdiv prec emax (S754_finite s1 p1 e1) c10000
    = S754_finite s1 q (div_float (Zpos p1, e1)).2 /\
    Zpos q = (div_float (Zpos p1, e1)).1 /\
    2 ^ 52 <= Zpos q < 2 ^ 53.
Proof.
  intros Hm He. unfold c10000, SFdiv, SFdiv_core_binary, div_float.
  simpl fst. simpl snd. rewrite xorb_false_r.
  assert (Hd1 : Zdigits2 (Zpos p1) = 53).
  { simpl. apply digits2_pos_unique. simpl (53 - 1). lia. }
  rewrite Hd1. change (Zdigits2 (Zpos m10000)) with 53.
  replace (Z.min (fexp prec emax (53 + e1 - (53 + -39))) (e1 - -39))
    with (e1 - 14) by (unfold fexp, SpecFloat.emin, prec, emax; lia).
  replace (e1 - -39 - (e1 - 14)) with 53 by lia.
  rewrite Z.shiftl_mul_pow2 by lia.
  set (a := Zpos p1 * 2 ^ 53).
  assert (Ha : 0 <= a) by (unfold a; lia).
  assert (Hde : Z.div_eucl a (Zpos m10000) = (a / Zpos m10000, a mod Zpos m10000)).
  { unfold Z.div, Z.modulo. by destruct (Z.div_eucl a (Zpos m10000)). }
  rewrite Hde.
  destruct (quotient_digits (Zpos p1) Hm) as [Hq Hdq]. fold a in Hq, Hdq.
  destruct (binary_round_aux_normal s1 (a / Zpos m10000) (e1 - 14)
              (new_location (Zpos m10000) (a mod Zpos m10000)) a (Zpos m10000))
    as (q & Heq & Hzq & Hb & _); try lia.
  { by apply located_new_location. }
  exists q. done.
Qed.

Lemma renorm_lex m e m' e' :
  m <= 2 ^ 53 -> 2 ^ 52 <= m' <= 2 ^ 53 ->
  e < e' \/ (e = e' /\ m <= m') ->
  lex_le (renorm m e) (renorm m' e').
Proof.
  intros Hm Hm' Hle. unfold lex_le, renorm.
  destruct (Z.eqb_spec m (2 ^ 53)), (Z.eqb_spec m' (2 ^ 53)); simpl; lia.
Qed.

Lemma Zdigits2_mono x y : 0 < x <= y -> Zdigits2 x <= Zdigits2 y.
Proof.
  intros [Hx Hxy]. destruct x as [|p|p], y as [|q|q]; try lia. simpl.
  pose proof (digits2_pos_bounds p) as [Hlo _].
  pose proof (digits2_pos_bounds q) as [_ Hhi].
  destruct (Z_lt_le_dec (Zpos (digits2_pos q)) (Zpos (digits2_pos p))) as [Hlt|]; [|done].
  assert (2 ^ Zpos (digits2_pos q) <= 2 ^ (Zpos (digits2_pos p) - 1))
    by (apply Z.pow_le_mono_r; lia).
  lia.
Qed.

(** Dividing by [10000.0] keeps the order. *)
Lemma div_float_mono f g :
  2 ^ 52 <= f.1 < 2 ^ 53 -> 2 ^ 52 <= g.1 < 2 ^ 53 ->
  lex_le f g -> lex_le (div_float f) (div_float g).
Proof.
  destruct f as [m1 e1], g as [m2 e2]. simpl. intros Hf Hg Hle.
  unfold lex_le in Hle. simpl in Hle. unfold div_float. simpl fst; simpl snd.
  destruct (quotient_digits m1 Hf) as [Hq1 Hd1].
  destruct (quotient_digits m2 Hg) as [Hq2 Hd2].
  assert (Hr : forall m n, 2 ^ 52 <= m < 2 ^ 53 ->
             Zdigits2 (m * 2 ^ 53 / Zpos m10000) - 53 = n ->
             2 ^ 52 <= rne (m * 2 ^ 53) (Zpos m10000 * 2 ^ n) <= 2 ^ 53).
  { intros m n Hm <-.
    assert (Ha : 0 <= m * 2 ^ 53) by lia.
    destruct (quotient_digits m Hm) as [Hq Hd].
    assert (Hn : 53 <= Zdigits2 (m * 2 ^ 53 / Zpos m10000) <= 54) by lia.
    destruct (binary_round_aux_normal false (m * 2 ^ 53 / Zpos m10000) 0
                (new_location (Zpos m10000) ((m * 2 ^ 53) mod Zpos m10000))
                (m * 2 ^ 53) (Zpos m10000))
      as (q & _ & _ & _ & Hr); try lia; by apply located_new_location. }
  apply renorm_lex.
  - by apply Hr.
  - by apply Hr.
  - destruct Hle as [Hlt|[-> Hm]].
    + destruct Hd1 as [Hd1|Hd1], Hd2 as [Hd2|Hd2]; rewrite Hd1, Hd2;
        try (left; lia).
      destruct (Z.eq_dec (e1 + 1) e2) as [<-|]; [|left; lia].
      right. split; [lia|].
      change (2 ^ (54 - 53)) with 2. change (2 ^ (53 - 53)) with 1.
      rewrite Z.mul_1_r, <- (rne_scale (m2 * 2 ^ 53)) by done.
      rewrite (Z.mul_comm (Zpos m10000) 2).
      apply rne_mono; [done|]. lia.
    + assert (Hqq : m1 * 2 ^ 53 / Zpos m10000 <= m2 * 2 ^ 53 / Zpos m10000)
        by (apply Z.div_le_mono; lia).
      assert (Hq0 : 0 < m1 * 2 ^ 53 / Zpos m10000) by lia.
      pose proof (Zdigits2_mono _ _ (conj Hq0 Hqq)) as Hdd.
      destruct (Z.eq_dec (Zdigits2 (m1 * 2 ^ 53 / Zpos m10000))
                         (Zdigits2 (m2 * 2 ^ 53 / Zpos m10000))) as [Heq|Hne].
      * right. rewrite Heq. split; [done|].
        apply rne_mono; [|lia].
        apply Z.mul_pos_pos; [done|]. apply Z.pow_pos_nonneg; lia.
      * left. lia.
Qed.

Lemma pos_float_exponent x :
  (pos_float x).2 = Zdigits2 x - 53 \/ (pos_float x).2 = Zdigits2 x - 52.
Proof.
  unfold pos_float, renorm. destruct (_ =? _); simpl; lia.
Qed.

(** Converting an integer keeps the order. *)
Lemma pos_float_mono p q :
  Zpos p <= Zpos q -> Zpos (digits2_pos q) <= 1000 ->
  lex_le (pos_float (Zpos p)) (pos_float (Zpos q)).
Proof.
  intros Hle Hdq.
  pose proof (Zdigits2_mono (Zpos p) (Zpos q) ltac:(lia)) as Hd. simpl in Hd.
  destruct (binary_round_pos false p ltac:(lia)) as (_ & _ & _ & _ & Hrp).
  destruct (binary_round_pos false q Hdq) as (_ & _ & _ & _ & Hrq).
  unfold pos_float. simpl Zdigits2. apply renorm_lex; [lia|lia|].
  destruct (Z.eq_dec (Zpos (digits2_pos p)) (Zpos (digits2_pos q))) as [Heq|Hne].
  - right. rewrite Heq. split; [done|].
    apply rne_mono.
    + apply Z.pow_pos_nonneg; lia.
    + apply Z.mul_le_mono_nonneg_r; [|done]. apply Z.pow_nonneg. lia.
  - left. lia.
Qed.

Lemma digits_int64 p : Zpos p <= 2 ^ 63 -> Zpos (digits2_pos p) <= 64.
Proof.
  intros Hp. pose proof (digits2_pos_bounds p) as [Hlo _].
  destruct (Z_lt_le_dec 64 (Zpos (digits2_pos p))) as [Hlt|]; [|done].
  assert (2 ^ 64 <= 2 ^ (Zpos (digits2_pos p) - 1)) by (apply Z.pow_le_mono_r; lia).
  lia.
Qed.

Lemma valid_normal s q e :
  2 ^ 52 <= Zpos q < 2 ^ 53 -> -1074 <= e <= 971 ->
  valid_binary (S754_finite s q e) = true.
Proof.
  intros Hq He. simpl. unfold bounded, canonical_mantissa.
  rewrite (digits2_pos_unique q 53) by (simpl (53 - 1); lia).
  apply andb_true_intro. split.
  - apply Z.eqb_eq. unfold fexp, SpecFloat.emin, prec, emax. lia.
  - apply Z.leb_le. unfold prec, emax. lia.
Qed.

Lemma binary_round_int64 s p :
  Zpos p <= 2 ^ 63 ->
  exists q,
    binary_round prec emax s p 0 = S754_finite s q (pos_float (Zpos p)).2 /\
    Zpos q = (pos_float (Zpos p)).1 /\
    2 ^ 52 <= Zpos q < 2 ^ 53 /\ -52 <= (pos_float (Zpos p)).2 <= 12.
Proof.
  intros Hp. pose proof (digits_int64 p Hp) as Hd.
  destruct (binary_round_pos s p ltac:(lia)) as (q & Heq & Hq & Hb & _).
  exists q. repeat split; try done; try lia;
    destruct (pos_float_exponent (Zpos p)) as [-> | ->]; simpl; lia.
Qed.

Lemma valid_normalize x :
  - 2 ^ 63 <= x <= 2 ^ 63 -> valid_binary (binary_normalize prec emax x 0 false) = true.
Proof.
  intros Hx. destruct x as [|p|p]; simpl binary_normalize; [done| |].
  - destruct (binary_round_int64 false p ltac:(lia)) as (q & -> & _ & Hq & He).
    apply valid_normal; lia.
  - destruct (binary_round_int64 true p ltac:(lia)) as (q & -> & _ & Hq & He).
    apply valid_normal; lia.
Qed.

Lemma sf_onset_finite s p :
  Zpos p <= 2 ^ 63 ->
  exists q,
    SFdiv prec emax (binary_round prec emax s p 0) c10000
    = S754_finite s q (div_float (pos_float (Zpos p))).2 /\
    Zpos q = (div_float (pos_float (Zpos p))).1.
Proof.
  intros Hp.
  destruct (binary_round_int64 s p Hp) as (q & -> & Hq & Hb & He).
  destruct (SFdiv_normal s q (pos_float (Zpos p)).2 Hb ltac:(lia))
    as (r & Heq & Hr & _).
  exists r. rewrite Heq, Hr, Hq. by destruct (pos_float (Zpos p)).
Qed.

Lemma SFleb_pos q e q' e' :
  lex_le (Zpos q, e) (Zpos q', e') ->
  SFleb (S754_finite false q e) (S754_finite false q' e') = true.
Proof.
  unfold lex_le, SFleb. simpl. intros [Hlt|[-> Hle]].
  - by rewrite (proj2 (Z.compare_lt_iff _ _) Hlt).
  - rewrite Z.compare_refl.
    change (Pos.compare_cont Eq q q') with (Pos.compare q q').
    destruct (Pos.compare_spec q q'); [done|done|lia].
Qed.

Lemma SFleb_neg q e q' e' :
  lex_le (Zpos q', e') (Zpos q, e) ->
  SFleb (S754_finite true q e) (S754_finite true q' e') = true.
Proof.
  unfold lex_le, SFleb. simpl. intros [Hlt|[-> Hle]].
  - by rewrite (proj2 (Z.compare_gt_iff _ _) Hlt).
  - rewrite Z.compare_refl.
    change (Pos.compare_cont Eq q q') with (Pos.compare q q').
    destruct (Pos.compare_spec q q'); [done|lia|done].
Qed.

Lemma div_pos_float_mono p q :
  Zpos p <= Zpos q -> Zpos q <= 2 ^ 63 ->
  lex_le (div_float (pos_float (Zpos p))) (div_float (pos_float (Zpos q))).
Proof.
  intros Hle Hq.
  destruct (binary_round_int64 false p ltac:(lia)) as (mp & _ & Hmp & Hbp & _).
  destruct (binary_round_int64 false q Hq) as (mq & _ & Hmq & Hbq & _).
  apply div_float_mono; [by rewrite <- Hmp|by rewrite <- Hmq|].
  apply pos_float_mono; [done|]. pose proof (digits_int64 q Hq). lia.
Qed.

(** On the specification: [x <= y] gives [x / 10000 <= y / 10000], for
    integers of either sign in the int64 range. *)
Lemma sf_onset_mono x y :
  - 2 ^ 63 <= x -> x <= y -> y <= 2 ^ 63 ->
  SFleb (sf_onset x) (sf_onset y) = true.
Proof.
  intros Hx Hxy Hy. unfold sf_onset.
  destruct x as [|p|p], y as [|q|q]; try lia; simpl binary_normalize.
  - done.
  - destruct (sf_onset_finite false q ltac:(lia)) as (r & -> & _). done.
  - destruct (sf_onset_finite false p ltac:(lia)) as (r & -> & Hr).
    destruct (sf_onset_finite false q ltac:(lia)) as (r' & -> & Hr').
    apply SFleb_pos. unfold lex_le. simpl. rewrite Hr, Hr'.
    apply div_pos_float_mono; lia.
  - destruct (sf_onset_finite true p ltac:(lia)) as (r & -> & _). done.
  - destruct (sf_onset_finite true p ltac:(lia)) as (r & -> & _).
    destruct (sf_onset_finite false q ltac:(lia)) as (r' & -> & _). done.
  - destruct (sf_onset_finite true p ltac:(lia)) as (r & -> & Hr).
    destruct (sf_onset_finite true q ltac:(lia)) as (r' & -> & Hr').
    apply SFleb_neg. unfold lex_le. simpl. rewrite Hr, Hr'.
    apply div_pos_float_mono; lia.
Qed.

Lemma scaled_prim x :
  - 2 ^ 63 <= x <= 2 ^ 63 ->
  Prim2SF (Num.float_of_int x / 10000)%float = sf_onset x.
Proof.
  intros Hx. rewrite div_spec. unfold Num.float_of_int, sf_onset.
  rewrite Prim2SF_SF2Prim by (by apply valid_normalize).
  by rewrite Prim2SF_10000.
Qed.

(** The same on the primitive floats. *)
Lemma scaled_mono x y :
  - 2 ^ 63 <= x -> x <= y -> y <= 2 ^ 63 ->
  (Num.float_of_int x / 10000 <=? Num.float_of_int y / 10000)%float = true.
Proof.
  intros Hx Hxy Hy. rewrite leb_spec, !scaled_prim by lia.
  by apply sf_onset_mono.
Qed.

(** * Facts about lists and frames *)

Section ListFacts.
Context {A B : Type}.

Lemma filter_fmap_comm (f : A -> B) (P : B -> Prop) `{!forall x, Decision (P x)}
    (l : list A) :
  filter P (f <$> l) = f <$> filter (fun x => P (f x)) l.
Proof.
  induction l as [|a l IH]; [done|].
  rewrite fmap_cons, !filter_cons.
  destruct (decide (P (f a))); by rewrite IH.
Qed.

Lemma head_filter_first (P : A -> Prop) `{!forall x, Decision (P x)}
    (l : list A) (x : A) :
  head (filter P l) = Some x ->
  exists k, l !! k = Some x /\ P x /\
    forall j y, (j < k)%nat -> l !! j = Some y -> ~ P y.
Proof.
  induction l as [|a l IH]; [done|].
  rewrite filter_cons. destruct (decide (P a)) as [Ha|Ha]; simpl.
  - intros [= ->]. exists 0%nat. repeat split; [done|]. intros j y Hj. lia.
  - intros Hh. destruct (IH Hh) as (k & Hk & Hx & Hmin).
    exists (S k). repeat split; [done..|].
    intros [|j] y Hj; simpl; [by intros [= <-]|].
    apply Hmin. lia.
Qed.

Lemma head_filter_is_Some (P : A -> Prop) `{!forall x, Decision (P x)}
    (l : list A) (x : A) :
  x ∈ l -> P x -> is_Some (head (filter P l)).
Proof.
  intros Hin HP. apply head_is_Some. intros Hnil.
  by apply (filter_nil_not_elem_of P l x).
Qed.

Lemma filter_ext_elem (P Q : A -> Prop)
    `{!forall x, Decision (P x), !forall x, Decision (Q x)} (l : list A) :
  (forall x, x ∈ l -> P x <-> Q x) -> filter P l = filter Q l.
Proof.
  induction l as [|a l IH]; [done|]. intros Hext.
  rewrite !filter_cons.
  assert (Ha : P a <-> Q a) by (apply Hext; left).
  rewrite IH by (intros x Hx; apply Hext; by right).
  destruct (decide (P a)), (decide (Q a)); tauto.
Qed.

Lemma filter_none (P : A -> Prop) `{!forall x, Decision (P x)} (l : list A) :
  (forall x, x ∈ l -> ~ P x) -> filter P l = [].
Proof.
  induction l as [|a l IH]; [done|]. intros Hno.
  rewrite filter_cons_False by (apply Hno; left).
  apply IH. intros x Hx. apply Hno. by right.
Qed.
End ListFacts.

Lemma read_frame_lookup rows k :
  read_frame rows !! k = (fun r => (k, r)) <$> rows !! k.
Proof. unfold read_frame. by rewrite list_lookup_imap. Qed.

Lemma read_frame_elem rows i r : (i, r) ∈ read_frame rows <-> rows !! i = Some r.
Proof.
  rewrite list_elem_of_lookup. split.
  - intros (k & Hk). rewrite read_frame_lookup in Hk.
    destruct (rows !! k) eqn:E; simplify_eq/=. done.
  - intros H. exists i. by rewrite read_frame_lookup, H.
Qed.

Lemma read_frame_labels rows : (read_frame rows).*1 = seq 0 (length rows).
Proof.
  apply list_eq. intros i. rewrite list_lookup_fmap, read_frame_lookup.
  destruct (rows !! i) eqn:E; simpl.
  - symmetry. apply lookup_seq_lt. by eapply lookup_lt_Some.
  - symmetry. apply lookup_seq_ge. by apply lookup_ge_None.
Qed.

Lemma upper_names_labels data : (upper_names data).*1 = data.*1.
Proof. unfold upper_names. rewrite <- list_fmap_compose. done. Qed.

Lemma names_upper_frame rows : names (upper_names (read_frame rows)) = norm <$> rows.
Proof.
  apply list_eq. intros i. unfold names, upper_names.
  rewrite !list_lookup_fmap, read_frame_lookup.
  by destruct (rows !! i).
Qed.

Lemma frame_lookup rows k :
  upper_names (read_frame rows) !! k
  = (fun r => (k, mkRaw (Trial r) (norm r) (Time r))) <$> rows !! k.
Proof.
  unfold upper_names. rewrite list_lookup_fmap, read_frame_lookup.
  by destruct (rows !! k).
Qed.

(** * Facts about [str.upper] *)

Lemma upper_ascii_idem c : Str.upper_ascii (Str.upper_ascii c) = Str.upper_ascii c.
Proof. destruct c as [[] [] [] [] [] [] [] []]; reflexivity. Qed.

Lemma upper_ascii_not_lower c : Str.is_lower (Str.upper_ascii c) = false.
Proof. destruct c as [[] [] [] [] [] [] [] []]; reflexivity. Qed.

Lemma upper_idem s : Str.upper (Str.upper s) = Str.upper s.
Proof.
  induction s as [|c s IH]; [done|]. simpl. by rewrite upper_ascii_idem, IH.
Qed.

Lemma upper_no_lower s : Str.no_lower (Str.upper s) = true.
Proof.
  induction s as [|c s IH]; [done|]. simpl. by rewrite upper_ascii_not_lower, IH.
Qed.

Lemma same_letter_upper c d :
  Str.same_letter c d -> Str.upper_ascii c = Str.upper_ascii d.
Proof.
  intros [->|[[_ ->]|[_ ->]]]; [done| |]; by rewrite upper_ascii_idem.
Qed.

Lemma case_variant_upper s t : Str.case_variant s t -> Str.upper s = Str.upper t.
Proof.
  induction 1 as [|c d s t Hcd _ IH]; [done|].
  simpl. by rewrite (same_letter_upper c d Hcd), IH.
Qed.

Lemma case_variant_list_upper (l k : list string) :
  Forall2 Str.case_variant l k -> Str.upper <$> l = Str.upper <$> k.
Proof.
  induction 1 as [|x y l k Hxy _ IH]; [done|].
  rewrite !fmap_cons. by rewrite (case_variant_upper x y Hxy), IH.
Qed.

(** * The duration column *)

Lemma add_duration_one r :
  add_duration [r]
  = [mkEvent (t_idx r) (t_trial_num r) (t_trial_type r) (t_onset r) (PrimFloat.abs nan)].
Proof. done. Qed.

Lemma add_duration_cons r r' tl :
  add_duration (r :: r' :: tl)
  = mkEvent (t_idx r) (t_trial_num r) (t_trial_type r) (t_onset r)
            (PrimFloat.abs (t_onset r - t_onset r'))
    :: add_duration (r' :: tl).
Proof. done. Qed.

Lemma add_duration_idx rows : idx <$> add_duration rows = t_idx <$> rows.
Proof.
  induction rows as [|r [|r' tl] IH]; [done..|].
  rewrite add_duration_cons, !fmap_cons. by rewrite IH.
Qed.

Lemma with_durations_idx te rows : idx <$> with_durations te rows = t_idx <$> rows.
Proof.
  induction rows as [|r tl IH]; [done|].
  cbn [with_durations]. rewrite !fmap_cons. by rewrite IH.
Qed.

Lemma last_index_add_duration rows r :
  last rows = Some r -> last_index (add_duration rows) = Some (t_idx r).
Proof.
  intros H. unfold last_index. by rewrite add_duration_idx, fmap_last, H.
Qed.

(** With distinct labels, the label of the last row selects the last row. *)
Lemma at_onset_last rows r :
  NoDup (t_idx <$> rows) -> last rows = Some r ->
  at_onset (t_idx r) (add_duration rows) = Some (t_onset r).
Proof.
  unfold at_onset.
  induction rows as [|a [|a' tl] IH]; intros Hnd Hl; [done| |].
  - simpl in Hl. injection Hl as ->. rewrite add_duration_one.
    rewrite filter_cons_True by done. done.
  - rewrite last_cons_cons in Hl. rewrite add_duration_cons.
    rewrite fmap_cons in Hnd. apply NoDup_cons in Hnd as [Hni Hnd].
    rewrite filter_cons_False; [by apply IH|].
    simpl. intros Heq. apply Hni. rewrite Heq.
    apply list_elem_of_fmap_2. by apply last_Some_elem_of.
Qed.

Lemma set_duration_at_last te rows r :
  NoDup (t_idx <$> rows) -> last rows = Some r ->
  set_duration_at (t_idx r) (last_duration te (t_onset r)) (add_duration rows)
  = with_durations te rows.
Proof.
  unfold set_duration_at.
  induction rows as [|a [|a' tl] IH]; intros Hnd Hl; [done| |].
  - simpl in Hl. injection Hl as ->. rewrite add_duration_one. simpl.
    by rewrite decide_True.
  - rewrite last_cons_cons in Hl. rewrite add_duration_cons.
    rewrite fmap_cons in Hnd. apply NoDup_cons in Hnd as [Hni Hnd].
    rewrite fmap_cons, IH by done.
    rewrite decide_False; [done|].
    simpl. intros Heq. apply Hni. rewrite Heq.
    apply list_elem_of_fmap_2. by apply last_Some_elem_of.
Qed.

(** Row [i] of the table: onset carried over, duration against row [i+1],
    or against the end time when there is no row [i+1]. *)
Lemma with_durations_lookup te rows i :
  with_durations te rows !! i
  = (fun r => mkEvent (t_idx r) (t_trial_num r) (t_trial_type r) (t_onset r)
       (match rows !! S i with
        | Some r' => PrimFloat.abs (t_onset r - t_onset r')
        | None => last_duration te (t_onset r)
        end)) <$> rows !! i.
Proof.
  revert i. induction rows as [|r tl IH]; intros i; [done|].
  destruct i as [|i]; simpl.
  - by destruct tl.
  - apply IH.
Qed.

(** * The success path of [parse_log_file] *)

Lemma NoDup_labels_filter {A} (P : nat * A -> Prop) `{!forall x, Decision (P x)}
    (l : list (nat * A)) :
  NoDup l.*1 -> NoDup (filter P l).*1.
Proof.
  induction l as [|a l IH]; [done|].
  rewrite fmap_cons, NoDup_cons. intros [Hni Hnd].
  rewrite filter_cons. destruct (decide (P a)); [|by apply IH].
  rewrite fmap_cons, NoDup_cons. split; [|by apply IH].
  intros Hin. apply Hni.
  apply list_elem_of_fmap in Hin as (x & -> & Hx).
  apply list_elem_of_filter in Hx as [_ Hx].
  by apply list_elem_of_fmap_2.
Qed.

Lemma retained_labels_NoDup rows tys s e : NoDup (retained rows tys s e).*1.
Proof.
  unfold retained. apply NoDup_labels_filter.
  rewrite read_frame_labels. apply NoDup_seq.
Qed.

Lemma rescale_labels ts fr : t_idx <$> rescale ts fr = fr.*1.
Proof. unfold rescale. by rewrite <- list_fmap_compose. Qed.

(** The frame the code filters is the normalised frame of the retained rows. *)
Lemma filtered_is_retained rows tys s e :
  filter (fun ir => name ir.2 ∈
            relevant_trials (Str.upper <$> tys) (Str.upper s) (Str.upper e))
         (upper_names (read_frame rows))
  = upper_names (retained rows tys s e).
Proof.
  unfold upper_names, retained. rewrite filter_fmap_comm. f_equal.
  apply list_filter_iff. intros [i r]. simpl.
  unfold relevant_trials, is_retained, norm. set_solver.
Qed.

Lemma first_time_intro rows m t :
  iloc0 (times_of m (upper_names (read_frame rows))) = Some t ->
  first_time rows m t.
Proof.
  unfold iloc0, times_of. intros H.
  destruct (filter _ _) as [|[k' r'] fl] eqn:Hf; [done|].
  simpl in H. injection H as <-.
  assert (Hh : head (filter (fun ir : nat * RawRow => name ir.2 = m)
                       (upper_names (read_frame rows))) = Some (k', r'))
    by (by rewrite Hf).
  apply head_filter_first in Hh as (k & Hk & Hname & Hmin).
  rewrite frame_lookup in Hk.
  destruct (rows !! k) as [r|] eqn:Hr; [|done].
  simpl in Hk. injection Hk as <- <-. simpl in Hname.
  exists k, r. repeat split; [done..|].
  intros j r'' Hj Hr''.
  apply (Hmin j (j, mkRaw (Trial r'') (norm r'') (Time r'')) Hj).
  by rewrite frame_lookup, Hr''.
Qed.

Lemma first_time_exists rows m :
  m ∈ norm <$> rows ->
  is_Some (iloc0 (times_of m (upper_names (read_frame rows)))).
Proof.
  intros Hin. apply list_elem_of_fmap in Hin as (r & -> & Hr).
  apply list_elem_of_lookup in Hr as [k Hk].
  unfold iloc0, times_of.
  assert (Hin : (k, mkRaw (Trial r) (norm r) (Time r))
                  ∈ upper_names (read_frame rows)).
  { apply list_elem_of_lookup. exists k. by rewrite frame_lookup, Hk. }
  apply (head_filter_is_Some (fun ir : nat * RawRow => name ir.2 = norm r))
    in Hin as [x Hx]; [|done].
  destruct (filter _ _); [done|]. simpl. eauto.
Qed.

(** With both markers in the log, the call returns: it reads both reference
    times from the first marker rows and returns the retained rows, with
    their onsets and durations, minus the marker rows. *)
Lemma parse_success rows s e tys :
  has_markers rows s e ->
  exists ts te,
    first_time rows (Str.upper s) ts /\ first_time rows (Str.upper e) te /\
    parse_log_file rows s e tys
    = (warn_missing (missing_types (Str.upper <$> tys) (upper_names (read_frame rows))),
       inr (strip_markers (Str.upper s) (Str.upper e) (full_table rows tys s e ts te))).
Proof.
  intros [Hs He]. unfold parse_log_file.
  rewrite names_upper_frame. rewrite decide_False by tauto.
  destruct (first_time_exists rows _ Hs) as [ts Hts].
  destruct (first_time_exists rows _ He) as [te Hte].
  exists ts, te. split; [by apply first_time_intro|].
  split; [by apply first_time_intro|]. f_equal.
  unfold compute_events. rewrite Hts, Hte, filtered_is_retained.
  set (tbl := rescale ts (upper_names (retained rows tys s e))).
  assert (Hnd : NoDup (t_idx <$> tbl)).
  { unfold tbl. rewrite rescale_labels, upper_names_labels.
    apply retained_labels_NoDup. }
  assert (Hne : is_Some (last tbl)).
  { apply last_is_Some. unfold tbl, rescale, upper_names. intros Hnil.
    apply fmap_nil_inv, fmap_nil_inv in Hnil.
    apply list_elem_of_fmap in Hs as (r & Hr & Hin).
    apply list_elem_of_lookup in Hin as [k Hk].
    apply (filter_nil_not_elem_of _ _ (k, r)) in Hnil.
    - apply Hnil. by apply read_frame_elem.
    - simpl. unfold is_retained. auto. }
  destruct Hne as [r Hr].
  rewrite (last_index_add_duration _ _ Hr).
  rewrite (at_onset_last _ _ Hnd Hr).
  by rewrite (set_duration_at_last te _ _ Hnd Hr).
Qed.

Lemma parse_returns_markers rows s e tys lg out :
  parse_log_file rows s e tys = (lg, inr out) -> has_markers rows s e.
Proof.
  unfold parse_log_file, has_markers. rewrite names_upper_frame.
  destruct (decide _) as [Hm|Hm]; [done|]. intros _.
  split; apply dec_stable; tauto.
Qed.

Lemma retained_lookup rows tys s e i j r :
  retained rows tys s e !! i = Some (j, r) ->
  rows !! j = Some r /\ is_retained tys s e r.
Proof.
  intros H. apply list_elem_of_lookup_2 in H.
  apply list_elem_of_filter in H as [Hret Hin].
  split; [by apply read_frame_elem|done].
Qed.

(** Row [i] of the table is retained row [i] with its onset; its duration
    is taken against retained row [i+1], or against the end time. *)
Lemma full_table_lookup rows tys s e ts te i :
  full_table rows tys s e ts te !! i
  = (fun jr : nat * RawRow =>
       mkEvent jr.1 (Trial jr.2) (norm jr.2) (onset_of ts (Time jr.2))
         (match retained rows tys s e !! S i with
          | Some jr' =>
              PrimFloat.abs (onset_of ts (Time jr.2) - onset_of ts (Time jr'.2))
          | None => last_duration te (onset_of ts (Time jr.2))
          end)) <$> retained rows tys s e !! i.
Proof.
  unfold full_table. rewrite with_durations_lookup.
  unfold rescale, upper_names. rewrite !list_lookup_fmap.
  destruct (retained rows tys s e !! i) as [[j r]|]; [|done].
  by destruct (retained rows tys s e !! S i) as [[j' r']|].
Qed.

Lemma full_table_labels rows tys s e ts te :
  idx <$> full_table rows tys s e ts te = (retained rows tys s e).*1.
Proof.
  unfold full_table.
  by rewrite with_durations_idx, rescale_labels, upper_names_labels.
Qed.

Lemma first_time_unique rows m t1 t2 :
  first_time rows m t1 -> first_time rows m t2 -> t1 = t2.
Proof.
  intros (k1 & r1 & Hk1 & Hn1 & <- & Hmin1) (k2 & r2 & Hk2 & Hn2 & <- & Hmin2).
  destruct (Nat.lt_trichotomy k1 k2) as [Hlt|[->|Hlt]].
  - by destruct (Hmin2 k1 r1 Hlt Hk1).
  - congruence.
  - by destruct (Hmin1 k2 r2 Hlt Hk2).
Qed.

Lemma norm_in_log (rows : list RawRow) (i : nat) r :
  rows !! i = Some r -> norm r ∈ norm <$> rows.
Proof. intros H. apply list_elem_of_fmap_2. by eapply list_elem_of_lookup_2. Qed.

(** Requested types that do not occur in the log retain no row. *)
Lemma retained_present rows tys s e :
  retained rows tys s e = retained rows (present_types rows tys) s e.
Proof.
  unfold retained. apply filter_ext_elem. intros [i r] Hin. simpl.
  apply read_frame_elem, norm_in_log in Hin.
  unfold is_retained, present_types. rewrite !list_elem_of_fmap.
  split; (intros [(t & Ht & Hin')|?]; [left|by right]); exists t.
  - split; [done|]. apply list_elem_of_filter. split; [|done]. by rewrite <- Ht.
  - split; [done|]. by apply list_elem_of_filter in Hin' as [_ ?].
Qed.

Lemma missing_types_elem tys rows x :
  x ∈ missing_types (Str.upper <$> tys) (upper_names (read_frame rows))
  <-> x ∈ Str.upper <$> tys /\ x ∉ norm <$> rows.
Proof.
  unfold missing_types.
  by rewrite elem_of_difference, !elem_of_list_to_set, names_upper_frame.
Qed.

Lemma frames_case_variant rows1 rows2 :
  Forall2 row_case_variant rows1 rows2 ->
  upper_names (read_frame rows1) = upper_names (read_frame rows2).
Proof.
  intros H. apply list_eq. intros i. rewrite !frame_lookup.
  destruct (rows1 !! i) as [r1|] eqn:E1.
  - destruct (Forall2_lookup_l _ _ _ _ _ H E1) as (r2 & E2 & HT & HTi & Hn).
    rewrite E2. simpl. unfold norm.
    by rewrite HT, HTi, (case_variant_upper _ _ Hn).
  - apply lookup_ge_None in E1. rewrite (Forall2_length _ _ _ H) in E1.
    apply lookup_ge_None in E1. by rewrite E1.
Qed.

(** Every row of the table carries the normalised name of a retained row. *)
Lemma full_table_elem rows tys s e ts te ev :
  ev ∈ full_table rows tys s e ts te ->
  exists r, rows !! idx ev = Some r /\ trial_type ev = norm r /\
            is_retained tys s e r.
Proof.
  intros Hev. apply list_elem_of_lookup in Hev as [i Hi].
  rewrite full_table_lookup in Hi.
  destruct (retained rows tys s e !! i) as [[j r]|] eqn:Hr; [|done].
  simpl in Hi. injection Hi as <-.
  apply retained_lookup in Hr as [Hr Hret]. by exists r.
Qed.

(** * Order of the rows and order of the onsets *)

Lemma chronologicalb_head r l :
  chronologicalb (r :: l) = true ->
  Forall (fun r' => Time r <= Time r') l /\ chronologicalb l = true.
Proof.
  revert r. induction l as [|a l IH]; intros r H; [done|].
  cbn [chronologicalb] in H. apply andb_prop in H as [Hra Hal].
  apply Z.leb_le in Hra. destruct (IH a Hal) as [Hfa Hl].
  split; [|done]. constructor; [done|].
  eapply Forall_impl; [exact Hfa|]. simpl. intros. lia.
Qed.

Lemma chronologicalb_sound rows : chronologicalb rows = true -> chronological rows.
Proof.
  induction rows as [|a l IH]; intros H i j r r' Hij Hi Hj; [done|].
  destruct (chronologicalb_head a l H) as [Hfa Hl].
  destruct i as [|i], j as [|j]; simpl in Hi, Hj; try lia.
  - injection Hi as <-. injection Hj as <-. lia.
  - injection Hi as <-.
    rewrite Forall_forall in Hfa. apply Hfa. by eapply list_elem_of_lookup_2.
  - apply (IH Hl i j); [lia|done..].
Qed.

(** A selection keeps the order of the rows. *)
Lemma filter_lookup_order {A} (P : A -> Prop) `{!forall x, Decision (P x)}
    (l : list A) (i j : nat) (x y : A) :
  (i <= j)%nat -> filter P l !! i = Some x -> filter P l !! j = Some y ->
  exists i' j', (i' <= j')%nat /\ l !! i' = Some x /\ l !! j' = Some y.
Proof.
  revert i j. induction l as [|a l IH]; intros i j Hij Hi Hj; [done|].
  rewrite filter_cons in Hi, Hj. destruct (decide (P a)) as [Ha|Ha].
  - destruct i as [|i], j as [|j]; simpl in Hi, Hj; try lia.
    + exists 0%nat, 0%nat. done.
    + apply list_elem_of_lookup_2, list_elem_of_filter in Hj as [_ Hj].
      apply list_elem_of_lookup in Hj as [j' Hj'].
      exists 0%nat, (S j'). split; [lia|done].
    + destruct (IH i j ltac:(lia) Hi Hj) as (i' & j' & Hle & Hi' & Hj').
      exists (S i'), (S j'). split; [lia|done].
  - destruct (IH i j Hij Hi Hj) as (i' & j' & Hle & Hi' & Hj').
    exists (S i'), (S j'). split; [lia|done].
Qed.

Lemma onset_of_mono ts t t' :
  Num.in_int64 (t - ts) -> Num.in_int64 (t' - ts) -> t <= t' ->
  (onset_of ts t <=? onset_of ts t')%float = true.
Proof.
  intros Ht Ht' Hle. unfold onset_of, Num.sub64.
  rewrite !wrap64_id by done. unfold Num.in_int64 in *.
  apply scaled_mono; lia.
Qed.

(** Closes [case_variant] and [row_case_variant] goals on literals. *)
Ltac same_letter :=
  first [ by left | right; left; by split | right; right; by split ].
Ltac case_variant :=
  repeat (apply Str.cv_cons; [same_letter|]); apply Str.cv_nil.
Ltac rows_case_variant :=
  repeat (apply List.Forall2_cons; [repeat split; try done; case_variant|]);
  apply List.Forall2_nil.
Ltac types_case_variant :=
  repeat (apply List.Forall2_cons; [case_variant|]); apply List.Forall2_nil.

(** Closes a decidable proposition about a concrete log by evaluation. *)
Ltac by_eval := apply (bool_decide_unpack _); vm_compute; exact I.

(** * The claims *)

(** C1: when the log contains both markers, the call returns a table, and no
    returned row has the normalised start or end marker as its trial type,
    whatever trial types were requested. *)
Theorem markers_excluded rows s e tys :
  has_markers rows s e ->
  exists out, (parse_log_file rows s e tys).2 = inr out /\
    forall ev, ev ∈ out ->
      trial_type ev <> Str.upper s /\ trial_type ev <> Str.upper e.
Proof.
  intros Hm. destruct (parse_success rows s e tys Hm) as (ts & te & _ & _ & ->).
  eexists. split; [done|].
  intros ev Hev. unfold strip_markers in Hev.
  by apply list_elem_of_filter in Hev as [? _].
Qed.

Lemma markers_excluded_witness :
  has_markers example_log "fMRI_T0" "END" /\
  exists out, (parse_log_file example_log "fMRI_T0" "END" ["VAS"; "fmri_t0"; "End"]).2 = inr out /\
    forall ev, ev ∈ out ->
      trial_type ev <> Str.upper "fMRI_T0" /\ trial_type ev <> Str.upper "END".
Proof.
  split; [by_eval|].
  apply (markers_excluded example_log "fMRI_T0" "END" ["VAS"; "fmri_t0"; "End"]).
  by_eval.
Defined.

(** C2: on a successful call, the start time is the [Time] of the first
    start-marker row and the end time the [Time] of the first end-marker row,
    in table order; every returned row comes from the row of the log with its
    label, and its onset is [(Time - start_time) / 10000], the subtraction
    being that of the int64 column (the plain difference when it fits 64
    bits); the end time is the one the duration of the last retained row is
    computed from. *)
Theorem onset_from_first_start rows s e tys lg out :
  parse_log_file rows s e tys = (lg, inr out) ->
  exists ts te,
    first_time rows (Str.upper s) ts /\
    first_time rows (Str.upper e) te /\
    (forall ev, ev ∈ out ->
       exists r, rows !! idx ev = Some r /\
         trial_num ev = Trial r /\ trial_type ev = norm r /\
         onset ev = (Num.float_of_int (Num.sub64 (Time r) ts) / 10000)%float /\
         (Num.in_int64 (Time r - ts) ->
          onset ev = (Num.float_of_int (Time r - ts) / 10000)%float)) /\
    (forall ev r, ev ∈ out ->
       last (retained rows tys s e) = Some (idx ev, r) ->
       duration ev = ((Num.float_of_int te - onset ev * 10000) / 10000)%float).
Proof.
  intros Hp. pose proof (parse_returns_markers _ _ _ _ _ _ Hp) as Hm.
  destruct (parse_success rows s e tys Hm) as (ts & te & Hts & Hte & Heq).
  rewrite Heq in Hp. injection Hp as _ <-.
  exists ts, te. split; [done|]. split; [done|]. split.
  - intros ev Hev. apply list_elem_of_filter in Hev as [_ Hev].
    apply list_elem_of_lookup in Hev as [i Hi].
    rewrite full_table_lookup in Hi.
    destruct (retained rows tys s e !! i) as [[j r]|] eqn:Hr; [|done].
    simpl in Hi. injection Hi as <-.
    apply retained_lookup in Hr as [Hr _].
    exists r. simpl. repeat split; [done|].
    intros Hfit. unfold onset_of, Num.sub64. by rewrite wrap64_id.
  - intros ev r Hev Hlast. apply list_elem_of_filter in Hev as [_ Hev].
    apply list_elem_of_lookup in Hev as [i Hi].
    rewrite full_table_lookup in Hi.
    destruct (retained rows tys s e !! i) as [[j r']|] eqn:Hr; [|done].
    rewrite last_lookup in Hlast.
    assert (Hi' : i = pred (length (retained rows tys s e))).
    { apply (NoDup_lookup _ _ _ j (retained_labels_NoDup rows tys s e)).
      - by rewrite list_lookup_fmap, Hr.
      - rewrite list_lookup_fmap, Hlast. simpl in Hi. by injection Hi as <-. }
    assert (Hnone : retained rows tys s e !! S i = None).
    { apply lookup_ge_None. apply lookup_lt_Some in Hr. lia. }
    rewrite Hnone in Hi. simpl in Hi. by injection Hi as <-.
Qed.

Lemma onset_from_first_start_witness :
  parse_log_file repeated_log "fMRI_T0" "END" ["VAS"; "PAIN"; "nothing"]
  = ([LogWarning {[ "NOTHING" ]}], inr repeated_out) /\
  exists ts te,
    first_time repeated_log "FMRI_T0" ts /\
    first_time repeated_log "END" te /\
    (forall ev, ev ∈ repeated_out ->
       exists r, repeated_log !! idx ev = Some r /\
         trial_num ev = Trial r /\ trial_type ev = norm r /\
         onset ev = (Num.float_of_int (Num.sub64 (Time r) ts) / 10000)%float /\
         (Num.in_int64 (Time r - ts) ->
          onset ev = (Num.float_of_int (Time r - ts) / 10000)%float)) /\
    (forall ev r, ev ∈ repeated_out ->
       last (retained repeated_log ["VAS"; "PAIN"; "nothing"] "fMRI_T0" "END")
       = Some (idx ev, r) ->
       duration ev = ((Num.float_of_int te - onset ev * 10000) / 10000)%float).
Proof.
  split; [vm_compute; reflexivity|].
  apply (onset_from_first_start repeated_log "fMRI_T0" "END"
           ["VAS"; "PAIN"; "nothing"] [LogWarning {[ "NOTHING" ]}] repeated_out).
  vm_compute. reflexivity.
Defined.

(** On an int64 log whose first difference with the start time does not
    fit 64 bits, the first onset is positive while the plain difference is
    negative. *)
Lemma overflow_breaks_onset_formula :
  ~ plain_onset_formula overflow_log "start" "end" ["vas"].
Proof.
  intros H.
  assert (Hst : first_time overflow_log "START" 9223372036854775807).
  { exists 2%nat, (mkRaw 3 "START" 9223372036854775807).
    repeat split; try reflexivity.
    intros j r' Hj Hr'. destruct j as [|[|j]]; [| |lia];
      simpl in Hr'; injection Hr' as <-; discriminate. }
  destruct (parse_log_file overflow_log "start" "end" ["vas"])
    as [lg [ex|out]] eqn:Hp.
  - vm_compute in Hp. discriminate Hp.
  - destruct (H lg out Hp) as (ts & Hts & Hall).
    rewrite (first_time_unique _ _ _ _ Hts Hst) in Hall. clear Hts.
    vm_compute in Hp. injection Hp as <- <-.
    destruct (Hall _ (list_elem_of_here _ _)) as (r & Hr & Hon).
    simpl in Hr. injection Hr as <-.
    apply (f_equal (fun x => (x <? 0)%float)) in Hon.
    vm_compute in Hon. discriminate Hon.
Qed.

(** C3: on a successful call the returned rows are the rows of a table, one
    row per retained row of the log (markers included, in table order), with
    the marker rows taken out; each row of that table has the onset of its
    row of the log; every row but the last has as duration the absolute
    difference between its onset and the onset of the next row, and the last
    row has [(end_time - onset * 10000) / 10000], where [end_time] is the
    [Time] of the first end-marker row. *)
Theorem duration_from_next rows s e tys lg out :
  parse_log_file rows s e tys = (lg, inr out) ->
  exists ts te tbl,
    first_time rows (Str.upper s) ts /\
    first_time rows (Str.upper e) te /\
    idx <$> tbl = (retained rows tys s e).*1 /\
    out = filter (fun ev => trial_type ev <> Str.upper s /\
                            trial_type ev <> Str.upper e) tbl /\
    forall i ev, tbl !! i = Some ev ->
      (exists r, rows !! idx ev = Some r /\ trial_type ev = norm r /\
         onset ev = (Num.float_of_int (Num.sub64 (Time r) ts) / 10000)%float) /\
      match tbl !! S i with
      | Some next => duration ev = PrimFloat.abs (onset ev - onset next)
      | None =>
          duration ev = ((Num.float_of_int te - onset ev * 10000) / 10000)%float
      end.
Proof.
  intros Hp. pose proof (parse_returns_markers _ _ _ _ _ _ Hp) as Hm.
  destruct (parse_success rows s e tys Hm) as (ts & te & Hts & Hte & Heq).
  rewrite Heq in Hp. injection Hp as _ <-.
  exists ts, te, (full_table rows tys s e ts te).
  split; [done|]. split; [done|].
  split; [apply full_table_labels|]. split; [done|].
  intros i ev. rewrite !full_table_lookup.
  destruct (retained rows tys s e !! i) as [[j r]|] eqn:Hr; [|done].
  simpl. intros [= <-]. simpl. split.
  - apply retained_lookup in Hr as [Hr _]. by exists r.
  - destruct (retained rows tys s e !! S i) as [[j' r']|] eqn:Hn; simpl.
    + by destruct (retained rows tys s e !! S (S i)).
    + done.
Qed.

Lemma duration_from_next_witness :
  parse_log_file repeated_log "fMRI_T0" "END" ["VAS"; "PAIN"; "nothing"]
  = ([LogWarning {[ "NOTHING" ]}], inr repeated_out) /\
  exists ts te tbl,
    first_time repeated_log "FMRI_T0" ts /\
    first_time repeated_log "END" te /\
    idx <$> tbl
    = (retained repeated_log ["VAS"; "PAIN"; "nothing"] "fMRI_T0" "END").*1 /\
    repeated_out = filter (fun ev => trial_type ev <> "FMRI_T0" /\
                                     trial_type ev <> "END") tbl /\
    forall i ev, tbl !! i = Some ev ->
      (exists r, repeated_log !! idx ev = Some r /\ trial_type ev = norm r /\
         onset ev = (Num.float_of_int (Num.sub64 (Time r) ts) / 10000)%float) /\
      match tbl !! S i with
      | Some next => duration ev = PrimFloat.abs (onset ev - onset next)
      | None =>
          duration ev = ((Num.float_of_int te - onset ev * 10000) / 10000)%float
      end.
Proof.
  split; [vm_compute; reflexivity|].
  apply (duration_from_next repeated_log "fMRI_T0" "END"
           ["VAS"; "PAIN"; "nothing"] [LogWarning {[ "NOTHING" ]}] repeated_out).
  vm_compute. reflexivity.
Defined.

(** C5: when the start marker, the end marker or both are absent from the
    normalised log, the call logs an error and raises [ValueError]; the
    error lists the start marker if it is absent, then the end marker if it
    is absent, and nothing else; no table is returned. *)
Theorem missing_marker_raises rows s e tys :
  ~ has_markers rows s e ->
  let missing :=
    (if decide (Str.upper s ∈ norm <$> rows) then [] else [Str.upper s]) ++
    (if decide (Str.upper e ∈ norm <$> rows) then [] else [Str.upper e]) in
  missing <> [] /\
  parse_log_file rows s e tys = ([LogError missing], inl (ValueError missing)).
Proof.
  intros Hm. unfold parse_log_file, has_markers in *.
  rewrite names_upper_frame.
  rewrite !filter_cons, filter_nil.
  destruct (decide (Str.upper s ∈ norm <$> rows)) as [Hs|Hs],
           (decide (Str.upper e ∈ norm <$> rows)) as [He|He]; simpl.
  - tauto.
  - rewrite decide_True by tauto.
    rewrite decide_False, decide_True by tauto. done.
  - rewrite decide_True by tauto.
    rewrite decide_True, decide_False by tauto. done.
  - rewrite decide_True by tauto.
    rewrite !decide_True by tauto. done.
Qed.

Lemma missing_marker_raises_witness :
  ~ has_markers repeated_log "fMRI_T0" "stop" /\
  ["STOP"] <> [] /\
  parse_log_file repeated_log "fMRI_T0" "stop" ["VAS"]
  = ([LogError ["STOP"]], inl (ValueError ["STOP"])).
Proof.
  split; [by_eval|].
  apply (missing_marker_raises repeated_log "fMRI_T0" "stop" ["VAS"]).
  by_eval.
Defined.

(** C4: on the four-row example log with start marker fMRI_T0, end marker
    END and trial types (VAS, PAIN), [parse_log_file] returns exactly the rows
    (1, VAS, 5.0, 3.0) and (2, PAIN, 8.0, 2.0), in that order, and logs
    nothing. *)
Theorem parse_example :
  parse_log_file example_log "fMRI_T0" "END" ["VAS"; "PAIN"]
  = ([], inr [ mkEvent 1 1 "VAS" 5%float 3%float;
               mkEvent 2 2 "PAIN" 8%float 2%float ]).
Proof. vm_compute. reflexivity. Qed.

(** C6: when both markers are in the log and some requested type is not, the
    call returns; it logs exactly one record, a warning with the set of the
    requested types absent from the log; the returned table is the one the
    call returns, without any warning, when only the present types are
    requested; and it is not empty as soon as one requested type that is not
    a marker occurs in the log. *)
Theorem absent_types_warned rows s e tys :
  has_markers rows s e ->
  (exists t, t ∈ tys /\ Str.upper t ∉ norm <$> rows) ->
  exists w out,
    parse_log_file rows s e tys = ([LogWarning w], inr out) /\
    (forall x, x ∈ w <-> x ∈ Str.upper <$> tys /\ x ∉ norm <$> rows) /\
    parse_log_file rows s e (present_types rows tys) = ([], inr out) /\
    ((exists t, t ∈ tys /\ Str.upper t ∈ norm <$> rows /\
                Str.upper t <> Str.upper s /\ Str.upper t <> Str.upper e) ->
     out <> []).
Proof.
  intros Hm (t & Ht & Habs).
  destruct (parse_success rows s e tys Hm) as (ts & te & Hts & Hte & Heq).
  destruct (parse_success rows s e (present_types rows tys) Hm)
    as (ts' & te' & Hts' & Hte' & Heq').
  rewrite (first_time_unique _ _ _ _ Hts' Hts) in Heq'.
  rewrite (first_time_unique _ _ _ _ Hte' Hte) in Heq'.
  unfold full_table in Heq'. rewrite <- retained_present in Heq'.
  fold (full_table rows tys s e ts te) in Heq'.
  eexists _, _. split; [|split; [apply missing_types_elem|split]].
  - rewrite Heq. f_equal. unfold warn_missing.
    rewrite decide_False; [done|].
    intros Hempty. apply (not_elem_of_empty (C:=gset string) (Str.upper t)).
    rewrite <- Hempty. apply missing_types_elem.
    split; [by apply list_elem_of_fmap_2|done].
  - rewrite Heq'. f_equal. unfold warn_missing.
    rewrite decide_True; [done|].
    apply set_eq. intros x. rewrite missing_types_elem.
    split; [|by intros ?%not_elem_of_empty].
    intros [Hx Hnx]. apply list_elem_of_fmap in Hx as (u & -> & Hu).
    unfold present_types in Hu. by apply list_elem_of_filter in Hu as [? _].
  - intros (u & Hu & Hpres & Hns & Hne).
    apply list_elem_of_fmap in Hpres as (r & Hnr & Hr).
    apply list_elem_of_lookup in Hr as [j Hj].
    assert (Hret : (j, r) ∈ retained rows tys s e).
    { apply list_elem_of_filter. split; [|by apply read_frame_elem].
      left. simpl. rewrite <- Hnr. by apply list_elem_of_fmap_2. }
    apply list_elem_of_lookup in Hret as [i Hi].
    intros Hnil.
    apply (filter_nil_not_elem_of _ _
             (mkEvent j (Trial r) (norm r) (onset_of ts (Time r))
                (match retained rows tys s e !! S i with
                 | Some jr' =>
                     PrimFloat.abs (onset_of ts (Time r) - onset_of ts (Time jr'.2))
                 | None => last_duration te (onset_of ts (Time r))
                 end))) in Hnil.
    + apply Hnil. apply list_elem_of_lookup. exists i.
      by rewrite full_table_lookup, Hi.
    + simpl. by rewrite <- Hnr.
Qed.

Lemma absent_types_warned_witness :
  has_markers repeated_log "fMRI_T0" "END" /\
  (exists t, t ∈ ["VAS"; "PAIN"; "nothing"] /\
             Str.upper t ∉ norm <$> repeated_log) /\
  exists w out,
    parse_log_file repeated_log "fMRI_T0" "END" ["VAS"; "PAIN"; "nothing"]
    = ([LogWarning w], inr out) /\
    (forall x, x ∈ w <-> x ∈ Str.upper <$> ["VAS"; "PAIN"; "nothing"] /\
                         x ∉ norm <$> repeated_log) /\
    parse_log_file repeated_log "fMRI_T0" "END"
      (present_types repeated_log ["VAS"; "PAIN"; "nothing"]) = ([], inr out) /\
    ((exists t, t ∈ ["VAS"; "PAIN"; "nothing"] /\
                Str.upper t ∈ norm <$> repeated_log /\
                Str.upper t <> Str.upper "fMRI_T0" /\
                Str.upper t <> Str.upper "END") ->
     out <> []).
Proof.
  assert (Habs : exists t, t ∈ ["VAS"; "PAIN"; "nothing"] /\
                           Str.upper t ∉ norm <$> repeated_log).
  { exists "nothing". split; by_eval. }
  split; [by_eval|]. split; [exact Habs|].
  apply (absent_types_warned repeated_log "fMRI_T0" "END" ["VAS"; "PAIN"; "nothing"]).
  - by_eval.
  - exact Habs.
Defined.

(** C7: two calls whose logs differ only in the letter case of the names,
    whose markers differ only in letter case and whose requested types
    differ only in letter case have the same result: the same log records
    and either the same exception or the same table; and every trial type
    of a returned table is in upper case. *)
Theorem case_insensitive rows1 rows2 s1 s2 e1 e2 tys1 tys2 :
  Forall2 row_case_variant rows1 rows2 ->
  Str.case_variant s1 s2 -> Str.case_variant e1 e2 ->
  Forall2 Str.case_variant tys1 tys2 ->
  parse_log_file rows1 s1 e1 tys1 = parse_log_file rows2 s2 e2 tys2 /\
  forall lg out ev,
    parse_log_file rows1 s1 e1 tys1 = (lg, inr out) -> ev ∈ out ->
    Str.no_lower (trial_type ev) = true /\
    Str.upper (trial_type ev) = trial_type ev.
Proof.
  intros Hrows Hs He Htys. split.
  - unfold parse_log_file.
    by rewrite (frames_case_variant _ _ Hrows), (case_variant_upper _ _ Hs),
      (case_variant_upper _ _ He), (case_variant_list_upper _ _ Htys).
  - intros lg out ev Hp Hev.
    pose proof (parse_returns_markers _ _ _ _ _ _ Hp) as Hm.
    destruct (parse_success rows1 s1 e1 tys1 Hm) as (ts & te & _ & _ & Heq).
    rewrite Heq in Hp. injection Hp as _ <-.
    apply list_elem_of_filter in Hev as [_ Hev].
    apply full_table_elem in Hev as (r & _ & -> & _).
    unfold norm. split; [apply upper_no_lower|apply upper_idem].
Qed.

Lemma case_insensitive_witness :
  Forall2 row_case_variant example_log example_log_mixed /\
  Str.case_variant "fMRI_T0" "FMRI_t0" /\ Str.case_variant "END" "end" /\
  Forall2 Str.case_variant ["VAS"; "PAIN"] ["vas"; "Pain"] /\
  parse_log_file example_log "fMRI_T0" "END" ["VAS"; "PAIN"]
  = parse_log_file example_log_mixed "FMRI_t0" "end" ["vas"; "Pain"] /\
  forall lg out ev,
    parse_log_file example_log "fMRI_T0" "END" ["VAS"; "PAIN"] = (lg, inr out) ->
    ev ∈ out ->
    Str.no_lower (trial_type ev) = true /\
    Str.upper (trial_type ev) = trial_type ev.
Proof.
  assert (Hrows : Forall2 row_case_variant example_log example_log_mixed)
    by rows_case_variant.
  assert (Hs : Str.case_variant "fMRI_T0" "FMRI_t0") by case_variant.
  assert (He : Str.case_variant "END" "end") by case_variant.
  assert (Htys : Forall2 Str.case_variant ["VAS"; "PAIN"] ["vas"; "Pain"])
    by types_case_variant.
  repeat (split; [assumption|]).
  exact (case_insensitive _ _ _ _ _ _ _ _ Hrows Hs He Htys).
Defined.

(** C9: when both markers are in the log and a requested type equals the
    start or the end marker up to letter case, the call returns a table
    with no row of that type, and no warning it logs names that type. *)
Theorem requested_marker_dropped rows s e tys t :
  has_markers rows s e -> t ∈ tys ->
  Str.upper t = Str.upper s \/ Str.upper t = Str.upper e ->
  exists lg out,
    parse_log_file rows s e tys = (lg, inr out) /\
    (forall ev, ev ∈ out -> trial_type ev <> Str.upper t) /\
    (forall w, LogWarning w ∈ lg -> Str.upper t ∉ w).
Proof.
  intros Hm Ht Hmark.
  destruct (parse_success rows s e tys Hm) as (ts & te & _ & _ & Heq).
  eexists _, _. split; [exact Heq|]. split.
  - intros ev Hev. apply list_elem_of_filter in Hev as [[Hs He] _].
    by destruct Hmark as [-> | ->].
  - intros w Hw. unfold warn_missing in Hw.
    destruct (decide _) as [_|_]; [by apply elem_of_nil in Hw|].
    apply list_elem_of_singleton in Hw. injection Hw as ->.
    rewrite missing_types_elem. intros [_ Habs]. apply Habs.
    destruct Hm as [Hs He]. by destruct Hmark as [-> | ->].
Qed.

Lemma requested_marker_dropped_witness :
  has_markers repeated_log "fMRI_T0" "END" /\
  "End" ∈ ["VAS"; "End"; "nothing"] /\
  (Str.upper "End" = Str.upper "fMRI_T0" \/ Str.upper "End" = Str.upper "END") /\
  exists lg out,
    parse_log_file repeated_log "fMRI_T0" "END" ["VAS"; "End"; "nothing"]
    = (lg, inr out) /\
    (forall ev, ev ∈ out -> trial_type ev <> Str.upper "End") /\
    (forall w, LogWarning w ∈ lg -> Str.upper "End" ∉ w).
Proof.
  split; [by_eval|]. split; [by_eval|]. split; [by right|].
  apply (requested_marker_dropped repeated_log "fMRI_T0" "END"
           ["VAS"; "End"; "nothing"] "End").
  - by_eval.
  - by_eval.
  - by right.
Defined.

(** C10, as the code has it: when both markers are in the log and no
    requested type is, the call returns the empty table; it logs one warning
    with the set of all the requested types when at least one type was
    requested, and logs nothing when none was. *)
Theorem none_present_empty rows s e tys :
  has_markers rows s e ->
  (forall t, t ∈ tys -> Str.upper t ∉ norm <$> rows) ->
  parse_log_file rows s e tys
  = (if decide (tys = []) then []
     else [LogWarning (list_to_set (Str.upper <$> tys))], inr []).
Proof.
  intros Hm Habs.
  destruct (parse_success rows s e tys Hm) as (ts & te & _ & _ & ->).
  assert (Hw : missing_types (Str.upper <$> tys) (upper_names (read_frame rows))
               = list_to_set (Str.upper <$> tys)).
  { apply set_eq. intros x. rewrite missing_types_elem, elem_of_list_to_set.
    split; [by intros [? _]|]. intros Hx. split; [done|].
    apply list_elem_of_fmap in Hx as (u & -> & Hu). by apply Habs. }
  f_equal.
  - unfold warn_missing. rewrite Hw.
    destruct tys as [|u tys]; [done|].
    rewrite decide_False; [by rewrite decide_False|].
    rewrite fmap_cons, list_to_set_cons. clear Hw. set_solver.
  - f_equal. apply filter_none. intros ev Hev [Hs He].
    apply full_table_elem in Hev as (r & Hr & Hty & [Hret|[Hret|Hret]]).
    + apply list_elem_of_fmap in Hret as (u & Hu & Hin).
      apply (Habs u Hin). rewrite <- Hu. by eapply norm_in_log.
    + congruence.
    + congruence.
Qed.

Lemma none_present_empty_witness :
  has_markers repeated_log "fMRI_T0" "END" /\
  (forall t, t ∈ ["nothing"; "none"] -> Str.upper t ∉ norm <$> repeated_log) /\
  parse_log_file repeated_log "fMRI_T0" "END" ["nothing"; "none"]
  = (if decide (["nothing"; "none"] = []) then []
     else [LogWarning (list_to_set (Str.upper <$> ["nothing"; "none"]))], inr []).
Proof.
  assert (Habs : forall t, t ∈ ["nothing"; "none"] ->
                           Str.upper t ∉ norm <$> repeated_log).
  { intros t Ht. apply elem_of_cons in Ht as [->|Ht]; [by_eval|].
    apply list_elem_of_singleton in Ht as ->. by_eval. }
  split; [by_eval|]. split; [exact Habs|].
  apply (none_present_empty repeated_log "fMRI_T0" "END" ["nothing"; "none"]).
  - by_eval.
  - exact Habs.
Defined.

(** With an empty request both markers are present and no requested type
    occurs in the log, yet no warning is logged. *)
Lemma empty_request_not_warned :
  ~ warns_all_requested example_log "fMRI_T0" "END" [].
Proof.
  intros H.
  assert (Hm : has_markers example_log "fMRI_T0" "END") by by_eval.
  specialize (H Hm (fun t Ht => False_ind _ (proj1 (elem_of_nil t) Ht))).
  vm_compute in H. discriminate H.
Qed.

(** C8, as the code has it: when the [Time] column is an int64 column whose
    rows are in non-decreasing order of [Time], and the difference between
    the [Time] of each returned row and the first start time fits a signed
    64-bit integer, the onsets of the returned rows are in non-decreasing
    order. *)
Theorem onsets_sorted rows s e tys lg out :
  chronological rows -> int64_column rows ->
  parse_log_file rows s e tys = (lg, inr out) ->
  (forall ts ev r, first_time rows (Str.upper s) ts ->
     ev ∈ out -> rows !! idx ev = Some r -> Num.in_int64 (Time r - ts)) ->
  onsets_nondecreasing out.
Proof.
  intros Hch _ Hp Hfit i j ev ev' Hij Hi Hj.
  pose proof (parse_returns_markers _ _ _ _ _ _ Hp) as Hm.
  destruct (parse_success rows s e tys Hm) as (ts & te & Hts & _ & Heq).
  rewrite Heq in Hp. injection Hp as _ <-.
  pose proof (list_elem_of_lookup_2 _ _ _ Hi) as Hev.
  pose proof (list_elem_of_lookup_2 _ _ _ Hj) as Hev'.
  destruct (filter_lookup_order _ _ i j ev ev' Hij Hi Hj)
    as (i1 & j1 & Hij1 & Hi1 & Hj1).
  rewrite full_table_lookup in Hi1, Hj1.
  destruct (retained rows tys s e !! i1) as [[k r]|] eqn:Hr1; [|done].
  destruct (retained rows tys s e !! j1) as [[k' r']|] eqn:Hr2; [|done].
  simpl in Hi1, Hj1. injection Hi1 as <-. injection Hj1 as <-.
  simpl in *.
  destruct (filter_lookup_order _ _ i1 j1 _ _ Hij1 Hr1 Hr2)
    as (a & b & Hab & Ha & Hb).
  rewrite read_frame_lookup in Ha, Hb.
  destruct (rows !! a) as [ra|] eqn:Hra; [|done].
  destruct (rows !! b) as [rb|] eqn:Hrb; [|done].
  simpl in Ha, Hb. injection Ha as <- <-. injection Hb as <- <-.
  apply onset_of_mono.
  - exact (Hfit ts _ ra Hts Hev Hra).
  - exact (Hfit ts _ rb Hts Hev' Hrb).
  - by apply (Hch a b).
Qed.

Lemma onsets_sorted_witness :
  chronological example_log /\ int64_column example_log /\
  parse_log_file example_log "fMRI_T0" "END" ["VAS"; "PAIN"]
  = ([], inr [ mkEvent 1 1 "VAS" 5%float 3%float;
               mkEvent 2 2 "PAIN" 8%float 2%float ]) /\
  (forall ts ev r, first_time example_log (Str.upper "fMRI_T0") ts ->
     ev ∈ [ mkEvent 1 1 "VAS" 5%float 3%float;
            mkEvent 2 2 "PAIN" 8%float 2%float ] ->
     example_log !! idx ev = Some r -> Num.in_int64 (Time r - ts)) /\
  onsets_nondecreasing [ mkEvent 1 1 "VAS" 5%float 3%float;
                         mkEvent 2 2 "PAIN" 8%float 2%float ].
Proof.
  assert (Hch : chronological example_log)
    by (apply chronologicalb_sound; reflexivity).
  assert (Hcol : int64_column example_log) by by_eval.
  assert (Hst : first_time example_log "FMRI_T0" 1000000).
  { exists 0%nat, (mkRaw 1 "FMRI_T0" 1000000).
    repeat split; try reflexivity. intros j r' Hj. lia. }
  assert (Hfit : forall ts ev r, first_time example_log (Str.upper "fMRI_T0") ts ->
            ev ∈ [ mkEvent 1 1 "VAS" 5%float 3%float;
                   mkEvent 2 2 "PAIN" 8%float 2%float ] ->
            example_log !! idx ev = Some r -> Num.in_int64 (Time r - ts)).
  { intros ts ev r Hts Hev Hr.
    rewrite (first_time_unique _ _ _ _ Hts Hst).
    apply elem_of_cons in Hev as [->|Hev];
      [|apply list_elem_of_singleton in Hev as ->];
      simpl in Hr; injection Hr as <-; by_eval. }
  split; [exact Hch|]. split; [exact Hcol|].
  split; [vm_compute; reflexivity|]. split; [exact Hfit|].
  apply (onsets_sorted example_log "fMRI_T0" "END" ["VAS"; "PAIN"] []);
    [exact Hch|exact Hcol|vm_compute; reflexivity|exact Hfit].
Defined.

(** A chronological log of int64 timestamps on which the subtraction of the
    start time wraps around: the first onset is positive, the second one
    negative. *)
Lemma overflow_breaks_order :
  ~ chronological_gives_sorted overflow_log "start" "end" ["vas"].
Proof.
  intros H.
  assert (Hch : chronological overflow_log)
    by (apply chronologicalb_sound; reflexivity).
  destruct (parse_log_file overflow_log "start" "end" ["vas"])
    as [lg [ex|out]] eqn:Hp; vm_compute in Hp; [discriminate Hp|].
  injection Hp as <- <-.
  specialize (H Hch _ _ eq_refl 0%nat 1%nat _ _ ltac:(lia) eq_refl eq_refl).
  vm_compute in H. discriminate H.
Qed.

(** * Further properties of [parse_log_file] *)

(** X1: a call returns a table exactly when both markers occur in the log,
    and the only exception it raises is the [ValueError] of the missing
    markers: the selections [.iloc[0]] and [.index[-1]] never fail. *)
Theorem raises_only_value_error rows s e tys :
  (has_markers rows s e <-> exists out, (parse_log_file rows s e tys).2 = inr out) /\
  (~ has_markers rows s e <->
   exists missing, (parse_log_file rows s e tys).2 = inl (ValueError missing)) /\
  (parse_log_file rows s e tys).2 <> inl IndexError.
Proof.
  destruct (decide (has_markers rows s e)) as [Hm|Hm].
  - destruct (parse_success rows s e tys Hm) as (ts & te & _ & _ & ->). simpl.
    split; [split; eauto|]. split; [|done].
    split; [done|]. by intros (missing & ?).
  - assert (Hp : (parse_log_file rows s e tys).2
                 = inl (ValueError (filter (fun t => t ∉ norm <$> rows)
                                           [Str.upper s; Str.upper e]))).
    { unfold parse_log_file, has_markers in *. rewrite names_upper_frame.
      destruct (decide _) as [_|Hd]; [done|].
      destruct Hm. split; apply dec_stable; tauto. }
    rewrite Hp. split; [|split; [split; eauto|done]].
    split; [done|]. by intros (out & ?).
Qed.

Lemma full_table_identity rows tys s e ts te :
  identity_columns <$> full_table rows tys s e ts te
  = (fun ir : nat * RawRow => (ir.1, Trial ir.2, norm ir.2)) <$> retained rows tys s e.
Proof.
  apply list_eq. intros i. rewrite !list_lookup_fmap, full_table_lookup.
  by destruct (retained rows tys s e !! i).
Qed.

(** X2: the returned table has exactly one row for each row of the log whose
    normalised name is a requested type and not a marker, in table order,
    with the label, the trial number and the normalised name of that row. *)
Theorem returned_rows_are_requested rows s e tys lg out :
  parse_log_file rows s e tys = (lg, inr out) ->
  identity_columns <$> out
  = (fun ir : nat * RawRow => (ir.1, Trial ir.2, norm ir.2))
    <$> filter (fun ir => is_requested tys s e ir.2) (read_frame rows).
Proof.
  intros Hp. pose proof (parse_returns_markers _ _ _ _ _ _ Hp) as Hm.
  destruct (parse_success rows s e tys Hm) as (ts & te & _ & _ & Heq).
  rewrite Heq in Hp. injection Hp as _ <-. unfold strip_markers.
  set (Q := fun c : nat * Z * string =>
              c.2 <> Str.upper s /\ c.2 <> Str.upper e).
  transitivity (filter Q (identity_columns <$> full_table rows tys s e ts te)).
  { by rewrite (filter_fmap_comm identity_columns Q). }
  rewrite full_table_identity, (filter_fmap_comm _ Q).
  f_equal. unfold retained. rewrite list_filter_filter.
  apply list_filter_iff. intros [i r]. unfold Q. simpl.
  unfold is_requested, is_retained. tauto.
Qed.

Lemma returned_rows_are_requested_witness :
  parse_log_file repeated_log "fMRI_T0" "END" ["VAS"; "PAIN"; "nothing"]
  = ([LogWarning {[ "NOTHING" ]}], inr repeated_out) /\
  identity_columns <$> repeated_out
  = (fun ir : nat * RawRow => (ir.1, Trial ir.2, norm ir.2))
    <$> filter (fun ir => is_requested ["VAS"; "PAIN"; "nothing"] "fMRI_T0" "END" ir.2)
               (read_frame repeated_log).
Proof.
  split; [vm_compute; reflexivity|].
  apply (returned_rows_are_requested repeated_log "fMRI_T0" "END"
           ["VAS"; "PAIN"; "nothing"] [LogWarning {[ "NOTHING" ]}] repeated_out).
  vm_compute. reflexivity.
Defined.

Lemma same_members_sets (l k : list string) :
  (forall x, x ∈ l <-> x ∈ k) -> list_to_set l =@{gset string} list_to_set k.
Proof. intros H. apply set_eq. intros x. by rewrite !elem_of_list_to_set. Qed.

Lemma sets_same_members (l k : list string) :
  list_to_set l =@{gset string} list_to_set k -> forall x, x ∈ l <-> x ∈ k.
Proof.
  intros H x. by rewrite <- (elem_of_list_to_set (C:=gset string) x l), H,
    elem_of_list_to_set.
Qed.

(** X3: the requested types count as a set: two requests with the same
    normalised names, in any order and with any repetition, give the same
    log records and the same outcome. *)
Theorem request_is_a_set rows s e tys1 tys2 :
  (forall x, x ∈ Str.upper <$> tys1 <-> x ∈ Str.upper <$> tys2) ->
  parse_log_file rows s e tys1 = parse_log_file rows s e tys2.
Proof.
  intros H. apply same_members_sets in H.
  unfold parse_log_file, missing_types, compute_events, relevant_trials.
  by rewrite H.
Qed.

Lemma request_is_a_set_witness :
  (forall x, x ∈ Str.upper <$> ["VAS"; "PAIN"] <->
             x ∈ Str.upper <$> ["pain"; "vas"; "Pain"; "VAS"]) /\
  parse_log_file repeated_log "fMRI_T0" "END" ["VAS"; "PAIN"]
  = parse_log_file repeated_log "fMRI_T0" "END" ["pain"; "vas"; "Pain"; "VAS"].
Proof.
  assert (H : forall x, x ∈ Str.upper <$> ["VAS"; "PAIN"] <->
                        x ∈ Str.upper <$> ["pain"; "vas"; "Pain"; "VAS"]).
  { apply sets_same_members. by_eval. }
  split; [exact H|].
  exact (request_is_a_set repeated_log "fMRI_T0" "END" _ _ H).
Defined.

(** X4: when both markers occur in the log, the call logs nothing exactly
    when every requested type occurs in the log. *)
Theorem silent_iff_all_present rows s e tys :
  has_markers rows s e ->
  ((parse_log_file rows s e tys).1 = [] <->
   forall t, t ∈ tys -> Str.upper t ∈ norm <$> rows).
Proof.
  intros Hm. destruct (parse_success rows s e tys Hm) as (ts & te & _ & _ & ->).
  simpl. unfold warn_missing. destruct (decide _) as [Hempty|Hne].
  - split; [|done]. intros _ t Ht.
    destruct (decide (Str.upper t ∈ norm <$> rows)) as [|Habs]; [done|].
    exfalso. apply (not_elem_of_empty (C:=gset string) (Str.upper t)).
    rewrite <- Hempty. apply missing_types_elem.
    split; [by apply list_elem_of_fmap_2|done].
  - split; [done|]. intros Hall. destruct Hne.
    apply set_eq. intros x. rewrite missing_types_elem.
    split; [|by intros ?%not_elem_of_empty].
    intros [Hx Hnx]. apply list_elem_of_fmap in Hx as (t & -> & Ht).
    by destruct Hnx; apply Hall.
Qed.

Lemma silent_iff_all_present_witness :
  has_markers repeated_log "fMRI_T0" "END" /\
  ((parse_log_file repeated_log "fMRI_T0" "END" ["VAS"; "pain"]).1 = [] <->
   forall t, t ∈ ["VAS"; "pain"] -> Str.upper t ∈ norm <$> repeated_log).
Proof.
  split; [by_eval|].
  apply (silent_iff_all_present repeated_log "fMRI_T0" "END" ["VAS"; "pain"]).
  by_eval.
Defined.

(** ** Onsets are finite numbers *)

Lemma wrap64_range z : Num.in_int64 (Num.wrap64 z).
Proof.
  unfold Num.in_int64, Num.wrap64.
  pose proof (Z.mod_pos_bound (z + 2 ^ 63) (2 ^ 64) ltac:(lia)). lia.
Qed.

Lemma onset_of_spec ts t : Prim2SF (onset_of ts t) = sf_onset (Num.sub64 t ts).
Proof.
  unfold onset_of. apply scaled_prim.
  pose proof (wrap64_range (t - ts)) as H.
  unfold Num.sub64, Num.in_int64 in *. lia.
Qed.

Lemma sf_onset_is_finite x :
  - 2 ^ 63 <= x <= 2 ^ 63 -> sf_finite (sf_onset x) = true.
Proof.
  intros Hx. unfold sf_onset. destruct x as [|p|p]; simpl binary_normalize.
  - done.
  - by destruct (sf_onset_finite false p ltac:(lia)) as (q & -> & _).
  - by destruct (sf_onset_finite true p ltac:(lia)) as (q & -> & _).
Qed.

Lemma onset_of_sf_finite ts t : sf_finite (Prim2SF (onset_of ts t)) = true.
Proof.
  rewrite onset_of_spec. apply sf_onset_is_finite.
  pose proof (wrap64_range (t - ts)) as H.
  unfold Num.sub64, Num.in_int64 in *. lia.
Qed.

Lemma is_finite_spec f : sf_finite (Prim2SF f) = true -> is_finite f = true.
Proof.
  intros H. unfold is_finite, is_nan, is_infinity.
  rewrite !FloatAxioms.eqb_spec, abs_spec.
  replace (Prim2SF infinity) with (S754_infinity false) by reflexivity.
  destruct (Prim2SF f) as [sg|sg| |sg m e]; try done.
  unfold SFeqb, SFcompare, SFabs.
  rewrite Z.compare_refl.
  change (Pos.compare_cont Eq m m) with (Pos.compare m m).
  rewrite Pos.compare_refl. by destruct sg.
Qed.

Lemma abs_not_negative x : (PrimFloat.abs x <? 0)%float = false.
Proof.
  rewrite ltb_spec, abs_spec.
  replace (Prim2SF 0%float) with (S754_zero false) by reflexivity.
  by destruct (Prim2SF x) as [[]|[]| |[] ? ?].
Qed.

Lemma sub_self x : sf_finite (Prim2SF x) = true -> (x - x)%float = 0%float.
Proof.
  intros H. apply Prim2SF_inj. rewrite sub_spec.
  replace (Prim2SF 0%float) with (S754_zero false) by reflexivity.
  destruct (Prim2SF x) as [sg|sg| |sg m e]; try done.
  - by destruct sg.
  - unfold SF64sub, SFsub. by rewrite Z.sub_diag.
Qed.

Lemma onset_of_start ts : onset_of ts ts = 0%float.
Proof. unfold onset_of, Num.sub64. rewrite Z.sub_diag. reflexivity. Qed.

(** A returned row is a row of the table, at the position of its label
    among the retained rows. *)
Lemma returned_row_lookup rows tys s e ts te ev :
  ev ∈ strip_markers (Str.upper s) (Str.upper e) (full_table rows tys s e ts te) ->
  exists i r,
    retained rows tys s e !! i = Some (idx ev, r) /\
    rows !! idx ev = Some r /\
    onset ev = onset_of ts (Time r) /\
    duration ev
    = match retained rows tys s e !! S i with
      | Some jr' => PrimFloat.abs (onset_of ts (Time r) - onset_of ts (Time jr'.2))
      | None => last_duration te (onset_of ts (Time r))
      end.
Proof.
  intros Hev. apply list_elem_of_filter in Hev as [_ Hev].
  apply list_elem_of_lookup in Hev as [i Hi].
  rewrite full_table_lookup in Hi.
  destruct (retained rows tys s e !! i) as [[j r]|] eqn:Hr; [|done].
  simpl in Hi. injection Hi as <-. simpl.
  exists i, r. split; [done|]. split; [|done].
  by apply retained_lookup in Hr as [? _].
Qed.

Lemma retained_position rows tys s e i i' j r r' :
  retained rows tys s e !! i = Some (j, r) ->
  retained rows tys s e !! i' = Some (j, r') -> i = i'.
Proof.
  intros Hi Hi'.
  apply (NoDup_lookup _ _ _ j (retained_labels_NoDup rows tys s e));
    rewrite list_lookup_fmap; [by rewrite Hi|by rewrite Hi'].
Qed.

(** X5: the start marker is the zero point.  For a returned row whose
    difference with the start time fits 64 bits, the onset is exactly [0]
    when the row has the [Time] of the first start marker, it is not
    negative when the row is not earlier, and not positive when the row is
    not later. *)
Theorem onset_sign rows s e tys lg out :
  parse_log_file rows s e tys = (lg, inr out) ->
  exists ts, first_time rows (Str.upper s) ts /\
    forall ev r, ev ∈ out -> rows !! idx ev = Some r ->
      Num.in_int64 (Time r - ts) ->
      (Time r = ts -> onset ev = 0%float) /\
      (ts <= Time r -> (0 <=? onset ev)%float = true) /\
      (Time r <= ts -> (onset ev <=? 0)%float = true).
Proof.
  intros Hp. pose proof (parse_returns_markers _ _ _ _ _ _ Hp) as Hm.
  destruct (parse_success rows s e tys Hm) as (ts & te & Hts & _ & Heq).
  rewrite Heq in Hp. injection Hp as _ <-.
  exists ts. split; [done|]. intros ev r Hev Hr Hfit.
  apply returned_row_lookup in Hev as (i & r' & _ & Hr' & -> & _).
  assert (r' = r) as -> by congruence.
  assert (H0 : Num.in_int64 (ts - ts)) by (unfold Num.in_int64; lia).
  split; [|split].
  - intros ->. apply onset_of_start.
  - intros Hle. rewrite <- (onset_of_start ts). by apply onset_of_mono.
  - intros Hle. rewrite <- (onset_of_start ts). by apply onset_of_mono.
Qed.

Lemma onset_sign_witness :
  parse_log_file repeated_log "fMRI_T0" "END" ["VAS"; "PAIN"; "nothing"]
  = ([LogWarning {[ "NOTHING" ]}], inr repeated_out) /\
  exists ts, first_time repeated_log "FMRI_T0" ts /\
    forall ev r, ev ∈ repeated_out -> repeated_log !! idx ev = Some r ->
      Num.in_int64 (Time r - ts) ->
      (Time r = ts -> onset ev = 0%float) /\
      (ts <= Time r -> (0 <=? onset ev)%float = true) /\
      (Time r <= ts -> (onset ev <=? 0)%float = true).
Proof.
  split; [vm_compute; reflexivity|].
  apply (onset_sign repeated_log "fMRI_T0" "END"
           ["VAS"; "PAIN"; "nothing"] [LogWarning {[ "NOTHING" ]}] repeated_out).
  vm_compute. reflexivity.
Defined.

(** X6: every onset of a returned table is a finite number, never NaN and
    never infinite, whatever the [Time] values of the log. *)
Theorem onsets_finite rows s e tys lg out :
  parse_log_file rows s e tys = (lg, inr out) ->
  forall ev, ev ∈ out -> is_finite (onset ev) = true.
Proof.
  intros Hp ev Hev. pose proof (parse_returns_markers _ _ _ _ _ _ Hp) as Hm.
  destruct (parse_success rows s e tys Hm) as (ts & te & _ & _ & Heq).
  rewrite Heq in Hp. injection Hp as _ <-.
  apply returned_row_lookup in Hev as (i & r & _ & _ & -> & _).
  apply is_finite_spec, onset_of_sf_finite.
Qed.

Lemma onsets_finite_witness :
  parse_log_file repeated_log "fMRI_T0" "END" ["VAS"; "PAIN"; "nothing"]
  = ([LogWarning {[ "NOTHING" ]}], inr repeated_out) /\
  forall ev, ev ∈ repeated_out -> is_finite (onset ev) = true.
Proof.
  split; [vm_compute; reflexivity|].
  apply (onsets_finite repeated_log "fMRI_T0" "END"
           ["VAS"; "PAIN"; "nothing"] [LogWarning {[ "NOTHING" ]}] repeated_out).
  vm_compute. reflexivity.
Defined.

(** ** Durations against a following row *)

(** X7: the duration of a returned row that is followed by another retained
    row is never negative, even when the log is not in time order. *)
Theorem followed_duration_not_negative rows s e tys lg out :
  parse_log_file rows s e tys = (lg, inr out) ->
  forall ev i r next, ev ∈ out ->
    retained rows tys s e !! i = Some (idx ev, r) ->
    retained rows tys s e !! S i = Some next ->
    (duration ev <? 0)%float = false.
Proof.
  intros Hp ev i r next Hev Hi Hnext.
  pose proof (parse_returns_markers _ _ _ _ _ _ Hp) as Hm.
  destruct (parse_success rows s e tys Hm) as (ts & te & _ & _ & Heq).
  rewrite Heq in Hp. injection Hp as _ <-.
  apply returned_row_lookup in Hev as (i' & r' & Hi' & _ & _ & ->).
  rewrite <- (retained_position _ _ _ _ _ _ _ _ _ Hi Hi'), Hnext.
  apply abs_not_negative.
Qed.

Lemma followed_duration_not_negative_witness :
  parse_log_file repeated_log "fMRI_T0" "END" ["VAS"; "PAIN"; "nothing"]
  = ([LogWarning {[ "NOTHING" ]}], inr repeated_out) /\
  mkEvent 2 1 "VAS" 5%float 15%float ∈ repeated_out /\
  retained repeated_log ["VAS"; "PAIN"; "nothing"] "fMRI_T0" "END" !! 2%nat
  = Some (2%nat, mkRaw 1 "VAS" 1050000) /\
  retained repeated_log ["VAS"; "PAIN"; "nothing"] "fMRI_T0" "END" !! 3%nat
  = Some (3%nat, mkRaw 1 "fMRI_T0" 1200000) /\
  (15 <? 0)%float = false.
Proof.
  assert (Hp : parse_log_file repeated_log "fMRI_T0" "END" ["VAS"; "PAIN"; "nothing"]
               = ([LogWarning {[ "NOTHING" ]}], inr repeated_out))
    by (vm_compute; reflexivity).
  assert (Hev : mkEvent 2 1 "VAS" 5%float 15%float ∈ repeated_out).
  { unfold repeated_out. apply list_elem_of_lookup. by exists 1%nat. }
  assert (Hi : retained repeated_log ["VAS"; "PAIN"; "nothing"] "fMRI_T0" "END"
               !! 2%nat = Some (2%nat, mkRaw 1 "VAS" 1050000))
    by (vm_compute; reflexivity).
  assert (Hn : retained repeated_log ["VAS"; "PAIN"; "nothing"] "fMRI_T0" "END"
               !! 3%nat = Some (3%nat, mkRaw 1 "fMRI_T0" 1200000))
    by (vm_compute; reflexivity).
  repeat (split; [assumption|]).
  exact (followed_duration_not_negative _ _ _ _ _ _ Hp _ _ _ _ Hev Hi Hn).
Defined.

(** X8: a returned row followed by a retained row with the same [Time] has
    duration exactly [0]. *)
Theorem simultaneous_duration_zero rows s e tys lg out :
  parse_log_file rows s e tys = (lg, inr out) ->
  forall ev i r next, ev ∈ out ->
    retained rows tys s e !! i = Some (idx ev, r) ->
    retained rows tys s e !! S i = Some next ->
    Time next.2 = Time r ->
    duration ev = 0%float.
Proof.
  intros Hp ev i r next Hev Hi Hnext Hsame.
  pose proof (parse_returns_markers _ _ _ _ _ _ Hp) as Hm.
  destruct (parse_success rows s e tys Hm) as (ts & te & _ & _ & Heq).
  rewrite Heq in Hp. injection Hp as _ <-.
  apply returned_row_lookup in Hev as (i' & r' & Hi' & Hr' & _ & ->).
  rewrite <- (retained_position _ _ _ _ _ _ _ _ _ Hi Hi'), Hnext.
  assert (r' = r) as ->.
  { apply retained_lookup in Hi as [Hi _]. congruence. }
  rewrite Hsame, sub_self by apply onset_of_sf_finite. reflexivity.
Qed.

Lemma simultaneous_duration_zero_witness :
  parse_log_file simultaneous_log "fMRI_T0" "END" ["VAS"; "PAIN"]
  = ([], inr simultaneous_out) /\
  mkEvent 1 1 "VAS" 5%float 0%float ∈ simultaneous_out /\
  retained simultaneous_log ["VAS"; "PAIN"] "fMRI_T0" "END" !! 1%nat
  = Some (1%nat, mkRaw 1 "VAS" 1050000) /\
  retained simultaneous_log ["VAS"; "PAIN"] "fMRI_T0" "END" !! 2%nat
  = Some (2%nat, mkRaw 2 "PAIN" 1050000) /\
  Time (2%nat, mkRaw 2 "PAIN" 1050000).2 = Time (mkRaw 1 "VAS" 1050000) /\
  0%float = 0%float.
Proof.
  assert (Hp : parse_log_file simultaneous_log "fMRI_T0" "END" ["VAS"; "PAIN"]
               = ([], inr simultaneous_out))
    by (vm_compute; reflexivity).
  assert (Hev : mkEvent 1 1 "VAS" 5%float 0%float ∈ simultaneous_out).
  { unfold simultaneous_out. apply list_elem_of_lookup. by exists 0%nat. }
  assert (Hi : retained simultaneous_log ["VAS"; "PAIN"] "fMRI_T0" "END" !! 1%nat
               = Some (1%nat, mkRaw 1 "VAS" 1050000))
    by (vm_compute; reflexivity).
  assert (Hn : retained simultaneous_log ["VAS"; "PAIN"] "fMRI_T0" "END" !! 2%nat
               = Some (2%nat, mkRaw 2 "PAIN" 1050000))
    by (vm_compute; reflexivity).
  assert (Ht : Time (2%nat, mkRaw 2 "PAIN" 1050000).2 = Time (mkRaw 1 "VAS" 1050000))
    by reflexivity.
  repeat (split; [assumption|]).
  exact (simultaneous_duration_zero _ _ _ _ _ _ Hp _ _ _ _ Hev Hi Hn Ht).
Defined.

(** ** Rows that are neither requested nor markers *)

Lemma read_frame_rows rows : (read_frame rows).*2 = rows.
Proof.
  apply list_eq. intros i. rewrite list_lookup_fmap, read_frame_lookup.
  by destruct (rows !! i).
Qed.

Lemma filter_frame_rows (P : RawRow -> Prop) `{!forall r, Decision (P r)} rows :
  (filter (fun ir : nat * RawRow => P ir.2) (read_frame rows)).*2 = filter P rows.
Proof. by rewrite <- (filter_fmap_comm snd P), read_frame_rows. Qed.

Lemma times_of_frame rows m :
  times_of m (upper_names (read_frame rows))
  = Time <$> filter (fun r => norm r = m) rows.
Proof.
  unfold times_of, upper_names. rewrite filter_fmap_comm.
  rewrite <- (filter_frame_rows (fun r => norm r = m)).
  by rewrite <- !list_fmap_compose.
Qed.

Lemma keep_retained_twice rows tys s e :
  filter (is_retained tys s e) (keep_retained rows tys s e)
  = keep_retained rows tys s e.
Proof.
  unfold keep_retained. rewrite list_filter_filter.
  apply list_filter_iff. tauto.
Qed.

Lemma marker_times_kept rows tys s e m :
  m = Str.upper s \/ m = Str.upper e ->
  times_of m (upper_names (read_frame (keep_retained rows tys s e)))
  = times_of m (upper_names (read_frame rows)).
Proof.
  intros Hm. rewrite !times_of_frame. f_equal.
  unfold keep_retained. rewrite list_filter_filter.
  apply list_filter_iff. intros r. unfold is_retained.
  destruct Hm as [-> | ->]; tauto.
Qed.

Lemma norm_in_kept rows tys s e x :
  x ∈ Str.upper <$> tys \/ x = Str.upper s \/ x = Str.upper e ->
  x ∈ norm <$> keep_retained rows tys s e <-> x ∈ norm <$> rows.
Proof.
  intros Hx. rewrite !list_elem_of_fmap. unfold keep_retained.
  split; intros (r & -> & Hr).
  - apply list_elem_of_filter in Hr as [_ Hr]. by exists r.
  - exists r. split; [done|]. by apply list_elem_of_filter.
Qed.

(** The first marker time is the head of the selected [Time] values. *)
Lemma first_time_iloc rows m t :
  m ∈ norm <$> rows -> first_time rows m t ->
  iloc0 (times_of m (upper_names (read_frame rows))) = Some t.
Proof.
  intros Hin Ht. destruct (first_time_exists rows m Hin) as [t0 Ht0].
  rewrite Ht0. f_equal.
  apply (first_time_unique rows m t0 t); [by apply first_time_intro|done].
Qed.

Lemma table_lookup te ts (fr : frame) i :
  with_durations te (rescale ts (upper_names fr)) !! i
  = (fun jr : nat * RawRow =>
       mkEvent jr.1 (Trial jr.2) (norm jr.2) (onset_of ts (Time jr.2))
         (match fr !! S i with
          | Some jr' =>
              PrimFloat.abs (onset_of ts (Time jr.2) - onset_of ts (Time jr'.2))
          | None => last_duration te (onset_of ts (Time jr.2))
          end)) <$> fr !! i.
Proof.
  rewrite with_durations_lookup.
  unfold rescale, upper_names. rewrite !list_lookup_fmap.
  destruct (fr !! i) as [[j r]|]; [|done].
  by destruct (fr !! S i) as [[j' r']|].
Qed.

(** The values of the table depend on the rows, not on their labels. *)
Lemma table_values te ts (fr fr' : frame) :
  fr.*2 = fr'.*2 ->
  value_columns <$> with_durations te (rescale ts (upper_names fr))
  = value_columns <$> with_durations te (rescale ts (upper_names fr')).
Proof.
  intros H. apply list_eq. intros i. rewrite !list_lookup_fmap, !table_lookup.
  assert (Hk : forall k, snd <$> fr !! k = snd <$> fr' !! k).
  { intros k. by rewrite <- !list_lookup_fmap, H. }
  pose proof (Hk i) as Hi. pose proof (Hk (S i)) as Hn.
  destruct (fr !! i) as [[j r]|], (fr' !! i) as [[j' r']|];
    simplify_eq/=; [|done].
  destruct (fr !! S i) as [[k r2]|], (fr' !! S i) as [[k' r2']|];
    by simplify_eq/=.
Qed.

(** X9: rows that are neither requested nor markers do not matter: the call
    on the log without them logs the same records and returns the same
    trial numbers, trial types, onsets and durations, in the same order. *)
Theorem other_rows_do_not_matter rows s e tys lg out :
  parse_log_file rows s e tys = (lg, inr out) ->
  exists out',
    parse_log_file (keep_retained rows tys s e) s e tys = (lg, inr out') /\
    value_columns <$> out' = value_columns <$> out.
Proof.
  intros Hp. pose proof (parse_returns_markers _ _ _ _ _ _ Hp) as Hm.
  assert (Hm' : has_markers (keep_retained rows tys s e) s e).
  { destruct Hm as [Hs He]. split; apply norm_in_kept; auto. }
  destruct (parse_success rows s e tys Hm) as (ts & te & Hts & Hte & Heq).
  destruct (parse_success _ s e tys Hm') as (ts' & te' & Hts' & Hte' & Heq').
  rewrite Heq in Hp. injection Hp as <- <-.
  assert (ts' = ts) as ->.
  { apply first_time_iloc in Hts, Hts'; [|apply Hm'|apply Hm].
    unfold iloc0 in *. rewrite marker_times_kept in Hts' by auto. congruence. }
  assert (te' = te) as ->.
  { apply first_time_iloc in Hte, Hte'; [|apply Hm'|apply Hm].
    unfold iloc0 in *. rewrite marker_times_kept in Hte' by auto. congruence. }
  eexists. split.
  - rewrite Heq'. f_equal. f_equal.
    apply set_eq. intros x. rewrite !missing_types_elem.
    split; intros [Hx Hnx]; (split; [done|]); intros Hin; apply Hnx;
      by apply (norm_in_kept rows tys s e x); auto.
  - unfold strip_markers.
    set (Q := fun c : Z * string * float * float =>
                c.1.1.2 <> Str.upper s /\ c.1.1.2 <> Str.upper e).
    transitivity (filter Q (value_columns
                    <$> full_table (keep_retained rows tys s e) tys s e ts te)).
    { by rewrite (filter_fmap_comm value_columns Q). }
    transitivity (filter Q (value_columns <$> full_table rows tys s e ts te)).
    2: { by rewrite (filter_fmap_comm value_columns Q). }
    f_equal. unfold full_table. apply table_values.
    assert (Hr : forall l, (retained l tys s e).*2 = filter (is_retained tys s e) l).
    { intros l. exact (filter_frame_rows (is_retained tys s e) l). }
    rewrite !Hr. apply keep_retained_twice.
Qed.

Lemma other_rows_do_not_matter_witness :
  parse_log_file repeated_log "fMRI_T0" "END" ["VAS"; "PAIN"; "nothing"]
  = ([LogWarning {[ "NOTHING" ]}], inr repeated_out) /\
  exists out',
    parse_log_file (keep_retained repeated_log ["VAS"; "PAIN"; "nothing"] "fMRI_T0" "END")
      "fMRI_T0" "END" ["VAS"; "PAIN"; "nothing"]
    = ([LogWarning {[ "NOTHING" ]}], inr out') /\
    value_columns <$> out' = value_columns <$> repeated_out.
Proof.
  split; [vm_compute; reflexivity|].
  apply (other_rows_do_not_matter repeated_log "fMRI_T0" "END"
           ["VAS"; "PAIN"; "nothing"] [LogWarning {[ "NOTHING" ]}] repeated_out).
  vm_compute. reflexivity.
Defined.

(** ** Whole multiples of [10000] *)

Lemma Zdigits2_bounds x :
  0 < x -> 2 ^ (Zdigits2 x - 1) <= x < 2 ^ Zdigits2 x.
Proof. intros Hx. destruct x as [|p|p]; try lia. apply digits2_pos_bounds. Qed.

Lemma Zdigits2_unique x k :
  2 ^ (k - 1) <= x < 2 ^ k -> 0 < x -> Zdigits2 x = k.
Proof.
  intros Hb Hx. destruct x as [|p|p]; try lia. by apply digits2_pos_unique.
Qed.

Lemma Zdigits2_shift k j :
  0 < k -> 0 <= j -> Zdigits2 (k * 2 ^ j) = Zdigits2 k + j.
Proof.
  intros Hk Hj. pose proof (Zdigits2_bounds k Hk) as [Hlo Hhi].
  assert (0 < Zdigits2 k) by (destruct k; simpl; lia).
  assert (0 < 2 ^ j) by (by apply Z.pow_pos_nonneg).
  apply Zdigits2_unique; [|nia].
  replace (Zdigits2 k + j - 1) with (Zdigits2 k - 1 + j) by lia.
  rewrite !Z.pow_add_r by lia. nia.
Qed.

Lemma Zdigits2_le x n : 0 < x -> x < 2 ^ n -> 0 <= n -> Zdigits2 x <= n.
Proof.
  intros Hx Hn H0. pose proof (Zdigits2_bounds x Hx) as [Hlo _].
  destruct (Z_lt_le_dec n (Zdigits2 x)) as [Hlt|]; [|done].
  assert (2 ^ n <= 2 ^ (Zdigits2 x - 1)) by (apply Z.pow_le_mono_r; lia). lia.
Qed.

Lemma rne_exact_mul q D : 0 < D -> rne (q * D) D = q.
Proof.
  intros HD. unfold rne. rewrite Z.div_mul, Z.mod_mul by lia.
  by rewrite (proj2 (Z.ltb_lt _ _)) by lia.
Qed.

Lemma pos_float_small x :
  0 < x -> Zdigits2 x <= 53 ->
  pos_float x = (x * 2 ^ (53 - Zdigits2 x), Zdigits2 x - 53).
Proof.
  intros Hx Hd. unfold pos_float.
  pose proof (Zdigits2_bounds x Hx) as [_ Hhi].
  replace (Z.max 0 (53 - Zdigits2 x)) with (53 - Zdigits2 x) by lia.
  replace (Z.max 0 (Zdigits2 x - 53)) with 0 by lia.
  change (2 ^ 0) with 1.
  rewrite <- (Z.mul_1_r (x * 2 ^ (53 - Zdigits2 x))) at 1.
  rewrite rne_exact_mul by lia. unfold renorm.
  assert (0 < Zdigits2 x) by (destruct x; simpl; lia).
  assert (Hp : 2 ^ Zdigits2 x * 2 ^ (53 - Zdigits2 x) = 2 ^ 53).
  { rewrite <- Z.pow_add_r by lia. f_equal. lia. }
  assert (0 < 2 ^ (53 - Zdigits2 x)) by (apply Z.pow_pos_nonneg; lia).
  destruct (Z.eqb_spec (x * 2 ^ (53 - Zdigits2 x)) (2 ^ 53)); [nia|done].
Qed.

(** Dividing [10000 * k] by [10000.0] gives [k], without rounding. *)
Lemma div_float_exact k :
  0 < k -> 10000 * k < 2 ^ 53 ->
  div_float (pos_float (10000 * k)) = pos_float k.
Proof.
  intros Hk Hx.
  assert (Hd : Zdigits2 (10000 * k) <= 53) by (apply Zdigits2_le; lia).
  assert (Hdk : Zdigits2 k <= Zdigits2 (10000 * k)) by (apply Zdigits2_mono; lia).
  pose proof (Zdigits2_bounds k Hk) as [Hklo Hkhi].
  assert (Hdk0 : 0 < Zdigits2 k) by (destruct k; simpl; lia).
  assert (Hd14 : Zdigits2 (10000 * k) <= Zdigits2 k + 14).
  { apply Zdigits2_le; [lia| |lia]. rewrite Z.pow_add_r by lia. lia. }
  rewrite (pos_float_small (10000 * k)) by lia.
  rewrite (pos_float_small k) by lia.
  set (d := Zdigits2 (10000 * k)) in *. set (dk := Zdigits2 k) in *.
  unfold div_float. simpl fst. simpl snd.
  assert (Hq : 10000 * k * 2 ^ (53 - d) * 2 ^ 53
               = k * 2 ^ (67 - d) * Zpos m10000).
  { replace (67 - d) with (53 - d + 14) by lia.
    rewrite Z.pow_add_r by lia. unfold m10000. lia. }
  assert (Hdiv : 10000 * k * 2 ^ (53 - d) * 2 ^ 53 / Zpos m10000 = k * 2 ^ (67 - d)).
  { rewrite Hq. by apply Z.div_mul. }
  cbv zeta. rewrite Hdiv.
  rewrite Zdigits2_shift by lia. fold dk.
  replace (dk + (67 - d) - 53) with (dk + 14 - d) by lia.
  assert (Ha : 10000 * k * 2 ^ (53 - d) * 2 ^ 53
               = k * 2 ^ (53 - dk) * (Zpos m10000 * 2 ^ (dk + 14 - d))).
  { replace (53 - d) with (53 - dk + (dk - d + 14) - 14 + 0) by lia.
    assert (Hpw : 2 ^ (53 - d) * 2 ^ 14 = 2 ^ (53 - dk) * 2 ^ (dk + 14 - d)).
    { rewrite <- !Z.pow_add_r by lia. f_equal. lia. }
    replace (53 - dk + (dk - d + 14) - 14 + 0) with (53 - d) by lia.
    unfold m10000. change (2 ^ 14) with 16384 in Hpw. nia. }
  rewrite Ha, rne_exact_mul.
  2: { apply Z.mul_pos_pos; [done|]. apply Z.pow_pos_nonneg; lia. }
  unfold renorm.
  assert (Hp : 2 ^ dk * 2 ^ (53 - dk) = 2 ^ 53).
  { rewrite <- Z.pow_add_r by lia. f_equal. lia. }
  assert (0 < 2 ^ (53 - dk)) by (apply Z.pow_pos_nonneg; lia).
  destruct (Z.eqb_spec (k * 2 ^ (53 - dk)) (2 ^ 53)); [nia|].
  f_equal. lia.
Qed.

Lemma sf_onset_exact_pos s p pk :
  Zpos p = 10000 * Zpos pk -> Zpos p < 2 ^ 53 ->
  SFdiv prec emax (binary_round prec emax s p 0) c10000
  = binary_round prec emax s pk 0.
Proof.
  intros Hp Hlt.
  destruct (sf_onset_finite s p ltac:(lia)) as (q & -> & Hq).
  destruct (binary_round_int64 s pk ltac:(lia)) as (q' & -> & Hq' & _).
  rewrite Hp, div_float_exact in Hq by lia.
  rewrite Hp, div_float_exact by lia.
  f_equal. apply Pos2Z.inj. by rewrite Hq, Hq'.
Qed.

Lemma sf_onset_exact k :
  - 2 ^ 53 < 10000 * k < 2 ^ 53 ->
  sf_onset (10000 * k) = binary_normalize prec emax k 0 false.
Proof.
  intros Hk. unfold sf_onset.
  destruct k as [|pk|pk]; [done| |].
  - destruct (10000 * Zpos pk) as [|p|p] eqn:Hp; try lia.
    simpl binary_normalize. apply sf_onset_exact_pos; lia.
  - destruct (10000 * Zneg pk) as [|p|p] eqn:Hp; try lia.
    simpl binary_normalize. apply sf_onset_exact_pos; lia.
Qed.

Lemma onset_of_exact ts t k :
  t - ts = 10000 * k -> - 2 ^ 53 < 10000 * k < 2 ^ 53 ->
  onset_of ts t = Num.float_of_int k.
Proof.
  intros Hd Hk. apply Prim2SF_inj. rewrite onset_of_spec.
  unfold Num.sub64. rewrite Hd, wrap64_id by (unfold Num.in_int64; lia).
  rewrite sf_onset_exact by done.
  unfold Num.float_of_int. rewrite Prim2SF_SF2Prim; [done|].
  apply valid_normalize. lia.
Qed.

(** X10: the unit conversion is exact on whole units: a returned row whose
    [Time] is [10000 * k] after the first start marker, with [10000 * k]
    below [2^53] in absolute value, has onset exactly [k]. *)
Theorem whole_units_exact rows s e tys lg out :
  parse_log_file rows s e tys = (lg, inr out) ->
  exists ts, first_time rows (Str.upper s) ts /\
    forall ev r k, ev ∈ out -> rows !! idx ev = Some r ->
      Time r - ts = 10000 * k -> - 2 ^ 53 < 10000 * k < 2 ^ 53 ->
      onset ev = Num.float_of_int k.
Proof.
  intros Hp. pose proof (parse_returns_markers _ _ _ _ _ _ Hp) as Hm.
  destruct (parse_success rows s e tys Hm) as (ts & te & Hts & _ & Heq).
  rewrite Heq in Hp. injection Hp as _ <-.
  exists ts. split; [done|]. intros ev r k Hev Hr Hd Hk.
  apply returned_row_lookup in Hev as (i & r' & _ & Hr' & -> & _).
  assert (r' = r) as -> by congruence.
  by apply onset_of_exact.
Qed.

Lemma whole_units_exact_witness :
  parse_log_file repeated_log "fMRI_T0" "END" ["VAS"; "PAIN"; "nothing"]
  = ([LogWarning {[ "NOTHING" ]}], inr repeated_out) /\
  exists ts, first_time repeated_log "FMRI_T0" ts /\
    forall ev r k, ev ∈ repeated_out -> repeated_log !! idx ev = Some r ->
      Time r - ts = 10000 * k -> - 2 ^ 53 < 10000 * k < 2 ^ 53 ->
      onset ev = Num.float_of_int k.
Proof.
  split; [vm_compute; reflexivity|].
  apply (whole_units_exact repeated_log "fMRI_T0" "END"
           ["VAS"; "PAIN"; "nothing"] [LogWarning {[ "NOTHING" ]}] repeated_out).
  vm_compute. reflexivity.
Defined.
